(** * The repository-metrics collector of [src/gh_client.py]

    A shallow embedding of the GitHub client: the resilient request
    executor ([_safe_request], [_respect_rate_limit]), the paginators
    ([_get_total_commits_count], [_collect_commits_since],
    [_collect_all_commits], [_fetch_closed_issues_for_average]), the window
    aggregation loops and the per-repository assembler of [get_gh_data].

    Modelling choices, all visible in the definitions below:
    - the outside world (the API server, the wall clock) is an oracle that
      answers as a function of everything the program did so far (its
      history of GETs, sleeps and clock reads); the program is a state and
      error monad over that history;
    - a decoded JSON body is a typed record whose optional members are
      [option]s ([None] for a missing key or a JSON null);
    - Python floats are exact rationals ([Q]);
    - library functions whose full behaviour is not part of this repository
      ([int], [datetime.fromisoformat], [isoformat], [urlparse]/[parse_qs])
      are fields of the environment class, so every theorem holds whatever
      they do; concrete instances are given in [Module Sample];
    - [while True] loops take fuel and answer [OutOfFuel] when it runs out. *)

From Stdlib Require Import ZArith QArith Qround String Ascii List Lia Permutation.
From stdpp Require Import base gmap strings list.
From Stdlib Require Import Lqa.

#[local] Open Scope Z_scope.

(** ** Python values that reach the output records *)

Inductive Value :=
| VNone
| VNaN
| VInt (n : Z)
| VFloat (q : Q)
| VStr (s : string).


Definition opt_int (o : option Z) : Value :=
  match o with Some n => VInt n | None => VNone end.

Definition opt_str (o : option string) : Value :=
  match o with Some s => VStr s | None => VNone end.

(** A Python [dict] with string keys, in insertion order. *)
Abbreviation Dict := (list (string * Value)).

Fixpoint dict_get (d : Dict) (k : string) : option Value :=
  match d with
  | [] => None
  | (k', v) :: d' => if String.eqb k k' then Some v else dict_get d' k
  end.

(** [d[k] = v]: an existing key keeps its position. *)
Fixpoint dict_set (k : string) (v : Value) (d : Dict) : Dict :=
  match d with
  | [] => [(k, v)]
  | (k', v') :: d' =>
      if String.eqb k k' then (k, v) :: d' else (k', v') :: dict_set k v d'
  end.

(** [a | b]: a copy of [a] updated with the items of [b], in order. *)
Definition dict_union (a b : Dict) : Dict :=
  fold_left (fun d kv => dict_set kv.1 kv.2 d) b a.

(** Truthiness of an optional string: [None] and [''] are falsy; a truthy
    one is handed back as the string it holds. *)
Definition nonempty (o : option string) : option string :=
  match o with
  | Some (String a s) => Some (String a s)
  | _ => None
  end.

(** [a or b] on optional strings. *)
Definition py_or (a b : option string) : option string :=
  match nonempty a with
  | Some _ => a
  | None => b
  end.

(** ** Strings *)

Module Str.

Fixpoint is_prefix (p s : string) : bool :=
  match p, s with
  | EmptyString, _ => true
  | String a p', String b s' => Ascii.eqb a b && is_prefix p' s'
  | String _ _, EmptyString => false
  end.

Fixpoint drop (n : nat) (s : string) : string :=
  match n, s with
  | O, _ => s
  | S n', String _ s' => drop n' s'
  | S _, EmptyString => EmptyString
  end.

(** [needle in s] *)
Fixpoint contains (needle s : string) : bool :=
  is_prefix needle s
  || match s with
     | EmptyString => false
     | String _ s' => contains needle s'
     end.

(** [s.split(sep)] for a one-character separator: never empty. *)
Fixpoint split (sep : ascii) (s : string) : list string :=
  match s with
  | EmptyString => [EmptyString]
  | String c s' =>
      if Ascii.eqb c sep then EmptyString :: split sep s'
      else match split sep s' with
           | [] => [String c EmptyString]
           | w :: ws => String c w :: ws
           end
  end.

(** [s.replace(c, by)] for a one-character pattern. *)
Fixpoint replace (c : ascii) (by_ : string) (s : string) : string :=
  match s with
  | EmptyString => EmptyString
  | String a s' =>
      if Ascii.eqb a c then by_ +:+ replace c by_ s'
      else String a (replace c by_ s')
  end.

Fixpoint lstrip_if (p : ascii -> bool) (s : string) : string :=
  match s with
  | EmptyString => EmptyString
  | String a s' => if p a then lstrip_if p s' else s
  end.

Fixpoint rstrip_if (p : ascii -> bool) (s : string) : string :=
  match s with
  | EmptyString => EmptyString
  | String a s' =>
      match rstrip_if p s' with
      | EmptyString => if p a then EmptyString else String a EmptyString
      | r => String a r
      end
  end.

(** [str.isspace] on the characters a header can hold (Latin-1). *)
Definition is_space (a : ascii) : bool :=
  let n := Z.of_nat (nat_of_ascii a) in
  ((9 <=? n) && (n <=? 13)) || ((28 <=? n) && (n <=? 32))
  || (n =? 133) || (n =? 160).

Definition strip (s : string) : string :=
  rstrip_if is_space (lstrip_if is_space s).

Definition lstrip (c : ascii) : string -> string := lstrip_if (Ascii.eqb c).
Definition rstrip (c : ascii) : string -> string := rstrip_if (Ascii.eqb c).

(** The longest prefix without ['/'], and what follows it. *)
Fixpoint span_nonslash (s : string) : string * string :=
  match s with
  | EmptyString => (EmptyString, EmptyString)
  | String a s' =>
      if Ascii.eqb a "/" then (EmptyString, s)
      else let '(g, r) := span_nonslash s' in (String a g, r)
  end.

End Str.

(** [re.compile(r'github\.com/([^/]+)/([^/]+)')]: a match that starts at the
    head of [s].  Both groups are greedy, and a shorter first group is never
    followed by ['/'], so each group is the longest run without a slash. *)
Definition pattern_match_here (s : string) : option (string * string) :=
  if Str.is_prefix "github.com/" s then
    let '(owner, r) := Str.span_nonslash (Str.drop 11 s) in
    match owner, r with
    | String _ _, String _ r' =>
        let '(repo, _) := Str.span_nonslash r' in
        match repo with
        | String _ _ => Some (owner, repo)
        | EmptyString => None
        end
    | _, _ => None
    end
  else None.

(** [pattern.search(s)]: the leftmost match, as [(group(1), group(2))]. *)
Fixpoint pattern_search (s : string) : option (string * string) :=
  match pattern_match_here s with
  | Some m => Some m
  | None =>
      match s with
      | EmptyString => None
      | String _ s' => pattern_search s'
      end
  end.

(** ** Dates *)

(** A [datetime]: microseconds of its wall-clock reading since the epoch,
    and its UTC offset in microseconds ([None]: a naive datetime). *)
Record datetime := { wall : Z; utcoffset : option Z }.

Inductive exn := UnboundLocalError | ValueError | TypeError | OverflowError.

Inductive Outcome (A : Type) :=
| Ok (a : A)
| Raise (e : exn)
| OutOfFuel.
Arguments Ok {A} a.
Arguments Raise {A} e.
Arguments OutOfFuel {A}.

Definition day_us : Z := 86400 * 1000000.

(** The range of a signed 64-bit count of nanoseconds, in which the
    interpreter keeps the length of a sleep. *)
Definition sleep_max_ns : Z := 9223372036854775807.
Definition sleep_min_ns : Z := -9223372036854775808.

(** [a >= b]; mixing naive and aware operands is a [TypeError]. *)
Definition dt_ge (a b : datetime) : Outcome bool :=
  match utcoffset a, utcoffset b with
  | Some oa, Some ob => Ok (wall b - ob <=? wall a - oa)
  | None, None => Ok (wall b <=? wall a)
  | _, _ => Raise TypeError
  end.

(** [a - b], a [timedelta] in microseconds. *)
Definition dt_sub (a b : datetime) : Outcome Z :=
  match utcoffset a, utcoffset b with
  | Some oa, Some ob => Ok ((wall a - oa) - (wall b - ob))
  | None, None => Ok (wall a - wall b)
  | _, _ => Raise TypeError
  end.

(** [dt - timedelta(days=n)] *)
Definition dt_minus_days (dt : datetime) (n : Z) : datetime :=
  {| wall := wall dt - n * day_us; utcoffset := utcoffset dt |}.

(** [td.days]: timedeltas are normalised with a floored day count. *)
Definition td_days (td : Z) : Z := td / day_us.

(** [td.total_seconds() / 86400.0] *)
Definition td_in_days (td : Z) : Q := (td # 1000000) / (86400 # 1).

(** Floats are kept as exact rationals, and [round(x, 2)] is taken on the
    rational: to the nearest hundredth, ties to the even one.  Python
    rounds the binary double, so the two agree on the sign of the result
    and on values that are the same in both (whole and half days and the
    like); nothing else is stated about the digits of a rounded value. *)
Definition round_half_even (x : Q) : Z :=
  let f := Qfloor x in
  let r := (x - inject_Z f)%Q in
  match (r ?= 1 # 2)%Q with
  | Lt => f
  | Gt => f + 1
  | Eq => if Z.even f then f else f + 1
  end.

Definition py_round2 (x : Q) : Q := Qred (round_half_even (x * (100 # 1)) # 100).

Definition py_sum (l : list Q) : Q := fold_left Qplus l (0 # 1)%Q.

(** ** Requests, responses and the history of the run *)

Inductive PVal := PInt (n : Z) | PStr (s : string).

(** The three resources the collector reads. *)
Inductive Endpoint :=
| RepoApi (owner repo : string)
| CommitsApi (owner repo : string)
| SearchIssuesApi.

Definition url_of (e : Endpoint) : string :=
  match e with
  | RepoApi owner repo =>
      "https://api.github.com/repos/" +:+ owner +:+ "/" +:+ repo
  | CommitsApi owner repo =>
      "https://api.github.com/repos/" +:+ owner +:+ "/" +:+ repo +:+ "/commits"
  | SearchIssuesApi => "https://api.github.com/search/issues"
  end.

Record RepoInfo := {
  ri_language : option string;
  ri_created_at : option string;
  ri_forks_count : option Z;
  ri_watchers_count : option Z;
  ri_stargazers_count : option Z;
  ri_open_issues_count : option Z
}.

(** One entry of a commit listing, through the paths the collector reads. *)
Record CommitRecord := {
  author_login : option string;          (* c['author']['login'] *)
  committer_login : option string;       (* c['committer']['login'] *)
  commit_committer_email : option string;(* c['commit']['committer']['email'] *)
  commit_committer_date : option string  (* c['commit']['committer']['date'] *)
}.

Record IssueRecord := {
  it_created_at : option string;
  it_closed_at : option string
}.

Record SearchResult := {
  total_count : option Z;
  items : list IssueRecord
}.

(** What [resp.json()] is for each resource. *)
Definition Json (e : Endpoint) : Type :=
  match e with
  | RepoApi _ _ => RepoInfo
  | CommitsApi _ _ => list CommitRecord
  | SearchIssuesApi => SearchResult
  end.

Record Response (B : Type) := {
  status_code : Z;
  headers : gmap string string;
  json : B
}.
Arguments status_code {B} r.
Arguments headers {B} r.
Arguments json {B} r.

Inductive RequestException := ConnectionError | ReadTimeout.

(** One call of [session.get]: a response or a transport-level exception. *)
Inductive Attempt (B : Type) :=
| Responded (r : Response B)
| Failed (e : RequestException).
Arguments Responded {B} r.
Arguments Failed {B} e.

Inductive Event :=
| EvGet (url : string) (params : option (gmap string PVal))
| EvSleep (seconds : Q)
| EvClock.

Abbreviation History := (list Event).

(** The environment of a run. *)
Class Env := {
  (** the server's answer to a GET, given all that happened before it *)
  upstream : forall e : Endpoint,
      History -> option (gmap string PVal) -> Attempt (Json e);
  (** the wall clock, in microseconds since the epoch *)
  clock : History -> Z;
  (** [int(s)]; [None] is a [ValueError] *)
  py_int : string -> option Z;
  (** [datetime.fromisoformat(s)]; [None] is a [ValueError] *)
  fromisoformat : string -> option datetime;
  (** [dt.isoformat()] *)
  isoformat : datetime -> string;
  (** [dt.date().isoformat()] *)
  date_isoformat : datetime -> string;
  (** [parse_qs(urlparse(u).query).get('page')], its first value *)
  page_query : string -> option string
}.

(** The per-process string hash, which fixes the iteration order of sets. *)
Class HashSeed := { str_hash : string -> Z }.

(** ** The monad of the collector *)

Definition M (A : Type) : Type := History -> Outcome A * History.

Definition ret {A} (a : A) : M A := fun h => (Ok a, h).

Definition raise {A} (e : exn) : M A := fun h => (Raise e, h).

Definition bind {A B} (m : M A) (k : A -> M B) : M B :=
  fun h =>
    match m h with
    | (Ok a, h') => k a h'
    | (Raise e, h') => (Raise e, h')
    | (OutOfFuel, h') => (OutOfFuel, h')
    end.

Definition lift {A} (o : Outcome A) : M A := fun h => (o, h).

Declare Scope gh_scope.
Delimit Scope gh_scope with gh.
Notation "x <- m ;; k" := (bind m (fun x => k))
  (at level 100, m at next level, right associativity) : gh_scope.
Notation "m ;;; k" := (bind m (fun _ => k))
  (at level 100, right associativity) : gh_scope.
#[local] Open Scope gh_scope.

(** ** The collector *)

Section Collector.
Context {env : Env} {seed : HashSeed}.

(** *** Transport

    [_get_session] only fixes the headers sent with every request; the
    session it builds is the [upstream] oracle of the environment. *)

(** [session.get(url, params=params, timeout=30)] *)
Definition session_get (e : Endpoint) (params : option (gmap string PVal))
  : M (Attempt (Json e)) :=
  fun h => (Ok (upstream e h params), h ++ [EvGet (url_of e) params]).

(** [time.sleep(seconds)].  The interpreter turns the wait into a signed
    64-bit count of nanoseconds before anything else: a wait that does not
    fit is an [OverflowError], a negative one a [ValueError], and neither
    sleeps. *)
Definition time_sleep (seconds : Q) : M unit :=
  fun h =>
    let ns := (seconds * (1000000000 # 1))%Q in
    if Qle_bool (inject_Z sleep_min_ns) ns && Qle_bool ns (inject_Z sleep_max_ns)
    then
      if Qle_bool 0 seconds then (Ok tt, h ++ [EvSleep seconds])
      else (Raise ValueError, h)
    else (Raise OverflowError, h).

Definition read_clock : M Z :=
  fun h => (Ok (clock h), h ++ [EvClock]).

(** [int(time.time())] *)
Definition time_time_int : M Z :=
  t <- read_clock ;; ret (Z.quot t 1000000).

(** [datetime.now(timezone.utc)] *)
Definition datetime_now_utc : M datetime :=
  t <- read_clock ;; ret {| wall := t; utcoffset := Some 0 |}.

(** *** Resilient request executor *)

Definition _respect_rate_limit {B} (resp : Response B) : M unit :=
  if status_code resp =? 403 then
    let remaining := headers resp !! "X-RateLimit-Remaining" in
    let reset := headers resp !! "X-RateLimit-Reset" in
    if bool_decide (remaining = Some "0") then
      match nonempty reset with
      | Some reset_str =>
          match py_int reset_str with
          | Some reset_ts =>
              now <- time_time_int ;;
              let sleep_sec := Z.max 0 (reset_ts - now) + 1 in
              time_sleep (inject_Z sleep_sec)
          | None => raise ValueError
          end
      | None => ret tt
      end
    else ret tt
  else ret tt.

(** The [for _ in range(5)] loop of [_safe_request] with [n] iterations
    left; [resp] is the local variable of that name, unbound at first. *)
Fixpoint safe_request_loop (e : Endpoint) (params : option (gmap string PVal))
    (n : nat) (resp : option (Response (Json e))) : M (Response (Json e)) :=
  match n with
  | O =>
      match resp with
      | Some r => ret r
      | None => raise UnboundLocalError
      end
  | S n' =>
      a <- session_get e params ;;
      match a with
      | Responded r =>
          if status_code r =? 403 then
            _respect_rate_limit r ;;;
            safe_request_loop e params n' (Some r)
          else if (status_code r =? 200) || (status_code r =? 201) then
            ret r
          else
            time_sleep (3 # 2) ;;;
            safe_request_loop e params n' (Some r)
      | Failed _ =>
          time_sleep (3 # 2) ;;;
          safe_request_loop e params n' resp
      end
  end.

Definition _safe_request (e : Endpoint) (params : option (gmap string PVal))
  : M (Response (Json e)) :=
  safe_request_loop e params 5 None.

(** *** Paginator *)

Definition per_page_1 : option (gmap string PVal) :=
  Some {[ "per_page" := PInt 1 ]}.

(** The literal [rel="last"]. *)
Definition rel_last : string :=
  "rel=" +:+ String "034" ("last" +:+ String "034" "").

(** The [try] block of [_get_total_commits_count]; any exception in it
    leaves [None]. *)
Definition last_page_of_part (part : string) : option Z :=
  let url_part :=
    Str.rstrip ">" (Str.lstrip "<" (Str.strip (List.hd "" (Str.split ";" part)))) in
  match page_query url_part with
  | Some p => py_int p
  | None => None
  end.

Definition _get_total_commits_count (owner repo : string) : M (option Z) :=
  resp <- _safe_request (CommitsApi owner repo) per_page_1 ;;
  if negb (status_code resp =? 200) then ret None
  else
    let link := headers resp !! "Link" in
    match nonempty link with
    | None =>
        let data : list CommitRecord := json resp in
        ret (Some (Z.of_nat (length data)))
    | Some link_str =>
        ret (fold_left
               (fun last_page part =>
                  if Str.contains rel_last part then last_page_of_part part
                  else last_page)
               (Str.split "," link_str) None)
    end.

Definition _get_latest_commit_date (owner repo : string) : M (option string) :=
  resp <- _safe_request (CommitsApi owner repo) per_page_1 ;;
  if negb (status_code resp =? 200) then ret None
  else
    match json resp with
    | [] => ret None
    | c :: _ => ret (commit_committer_date c)
    end.

(** The page walk shared, line for line, by [_collect_commits_since] and
    [_collect_all_commits]; only the query parameters differ.  [fuel]
    bounds the iterations of [while True]. *)
Fixpoint walk_commits (owner repo : string) (params_of : Z -> gmap string PVal)
    (fuel : nat) (page : Z) (commits : list CommitRecord)
  : M (list CommitRecord) :=
  match fuel with
  | O => lift OutOfFuel
  | S fuel' =>
      resp <- _safe_request (CommitsApi owner repo) (Some (params_of page)) ;;
      if negb (status_code resp =? 200) then ret commits
      else
        let batch : list CommitRecord := json resp in
        match batch with
        | [] => ret commits
        | _ :: _ =>
            let commits := commits ++ batch in
            if Z.of_nat (length batch) <? 100 then ret commits
            else walk_commits owner repo params_of fuel' (page + 1) commits
        end
  end.

Definition since_params (since_iso : string) (page : Z) : gmap string PVal :=
  <[ "since" := PStr since_iso ]>
    (<[ "per_page" := PInt 100 ]> {[ "page" := PInt page ]}).

Definition all_params (page : Z) : gmap string PVal :=
  <[ "per_page" := PInt 100 ]> {[ "page" := PInt page ]}.

Definition _collect_commits_since (fuel : nat) (owner repo since_iso : string)
  : M (list CommitRecord) :=
  walk_commits owner repo (since_params since_iso) fuel 1 [].

Definition _collect_all_commits (fuel : nat) (owner repo : string)
  : M (list CommitRecord) :=
  walk_commits owner repo all_params fuel 1 [].

Definition _search_issues_count (owner repo q : string) : M (option Z) :=
  let query := "repo:" +:+ owner +:+ "/" +:+ repo +:+ " " +:+ q in
  resp <- _safe_request SearchIssuesApi
            (Some (<[ "q" := PStr query ]> {[ "per_page" := PInt 1 ]})) ;;
  if negb (status_code resp =? 200) then ret None
  else ret (total_count (json resp)).

Definition closed_params (query : string) (page : Z) : gmap string PVal :=
  <[ "q" := PStr query ]>
    (<[ "sort" := PStr "updated" ]>
       (<[ "order" := PStr "desc" ]>
          (<[ "per_page" := PInt 100 ]> {[ "page" := PInt page ]}))).

Fixpoint walk_closed_issues (query : string) (fuel : nat) (page : Z)
    (results : list IssueRecord) : M (list IssueRecord) :=
  match fuel with
  | O => lift OutOfFuel
  | S fuel' =>
      resp <- _safe_request SearchIssuesApi (Some (closed_params query page)) ;;
      if negb (status_code resp =? 200) then ret results
      else
        let data : SearchResult := json resp in
        match items data with
        | [] => ret results
        | _ :: _ =>
            let results := results ++ items data in
            if (Z.of_nat (length (items data)) <? 100) || (10 <=? page)
            then ret results
            else walk_closed_issues query fuel' (page + 1) results
        end
  end.

Definition _fetch_closed_issues_for_average (fuel : nat)
    (owner repo closed_since_iso : string) : M (list IssueRecord) :=
  let query :=
    "repo:" +:+ owner +:+ "/" +:+ repo +:+ " type:issue is:closed closed:>="
    +:+ List.hd "" (Str.split "T" closed_since_iso) in
  walk_closed_issues query fuel 1 [].

(** *** Window aggregator *)

(** A Python [set] of strings.  Only its elements are observable through
    [add], [len] and truthiness; its iteration order follows the
    per-process hash. *)
Definition PySet : Type := list string.

Fixpoint set_place (x : string) (s : PySet) : PySet :=
  match s with
  | [] => [x]
  | y :: s' =>
      if str_hash x <? str_hash y then x :: s else y :: set_place x s'
  end.

Definition set_add (x : string) (s : PySet) : PySet :=
  if existsb (String.eqb x) s then s else set_place x s.

Definition set_len (s : PySet) : Z := Z.of_nat (length s).

(** [datetime.fromisoformat(s.replace('Z', '+00:00'))] *)
Definition parse_date (s : string) : option datetime :=
  fromisoformat (Str.replace "Z" "+00:00" s).

(** The loop over [recent_commits], from the state
    [(commits_last_6m, unique_commit_days)]. *)
Fixpoint window_loop (six_months_ago : datetime) (recent_commits : list CommitRecord)
    (commits_last_6m : Z) (unique_commit_days : PySet) : Outcome (Z * PySet) :=
  match recent_commits with
  | [] => Ok (commits_last_6m, unique_commit_days)
  | c :: rest =>
      match nonempty (commit_committer_date c) with
      | None => window_loop six_months_ago rest commits_last_6m unique_commit_days
      | Some date_str =>
          match parse_date date_str with
          | None =>
              window_loop six_months_ago rest commits_last_6m unique_commit_days
          | Some dt =>
              match dt_ge dt six_months_ago with
              | Ok true =>
                  window_loop six_months_ago rest (commits_last_6m + 1)
                    (set_add (date_isoformat dt) unique_commit_days)
              | Ok false =>
                  window_loop six_months_ago rest commits_last_6m unique_commit_days
              | Raise e => Raise e
              | OutOfFuel => OutOfFuel
              end
          end
      end
  end.

(** The identity a commit is counted under. *)
Definition committer_identity (c : CommitRecord) : string :=
  let login := py_or (author_login c) (committer_login c) in
  match nonempty login with
  | Some l => l
  | None =>
      match nonempty (commit_committer_email c) with
      | Some email => email
      | None => "unknown"
      end
  end.

(** The loop over [all_commits]. *)
Definition committers_loop (all_commits : list CommitRecord)
    (unique_committers : PySet) : PySet :=
  fold_left (fun s c => set_add (committer_identity c) s)
    all_commits unique_committers.

(** The loop over [closed_recent_items], from the list [close_deltas]. *)
Fixpoint close_deltas_loop (six_months_ago : datetime)
    (closed_recent_items : list IssueRecord) (close_deltas : list Q)
  : Outcome (list Q) :=
  match closed_recent_items with
  | [] => Ok close_deltas
  | it :: rest =>
      match nonempty (it_created_at it), nonempty (it_closed_at it) with
      | Some created_at, Some closed_at =>
          match parse_date created_at, parse_date closed_at with
          | Some cdt, Some xdt =>
              match dt_ge xdt six_months_ago with
              | Ok true =>
                  match dt_sub xdt cdt with
                  | Ok td =>
                      let delta_days := td_in_days td in
                      if Qle_bool 0 delta_days then
                        close_deltas_loop six_months_ago rest
                          (close_deltas ++ [delta_days])
                      else close_deltas_loop six_months_ago rest close_deltas
                  | Raise e => Raise e
                  | OutOfFuel => OutOfFuel
                  end
              | Ok false => close_deltas_loop six_months_ago rest close_deltas
              | Raise e => Raise e
              | OutOfFuel => OutOfFuel
              end
          | _, _ => close_deltas_loop six_months_ago rest close_deltas
          end
      | _, _ => close_deltas_loop six_months_ago rest close_deltas
      end
  end.

(** [round(sum(close_deltas) / len(close_deltas), 2) if close_deltas else None] *)
Definition avg_issue_close_time (close_deltas : list Q) : option Q :=
  match close_deltas with
  | [] => None
  | _ :: _ =>
      Some (py_round2 (py_sum close_deltas / inject_Z (Z.of_nat (length close_deltas))))
  end.

(** The block that computes [(repo_age_days, days_of_activity)]. *)
Definition repo_age_block (created_at latest_commit_date : option string)
  : M (option Z * option Z) :=
  match nonempty created_at with
  | None => ret (None, None)
  | Some created_str =>
      match parse_date created_str with
      | None => ret (None, None)
      | Some created_dt =>
          now <- datetime_now_utc ;;
          age <- lift (dt_sub now created_dt) ;;
          let repo_age_days := Some (td_days age) in
          match nonempty latest_commit_date with
          | None => ret (repo_age_days, None)
          | Some latest_str =>
              match parse_date latest_str with
              | None => ret (None, None)
              | Some latest_commit_dt =>
                  span <- lift (dt_sub latest_commit_dt created_dt) ;;
                  ret (repo_age_days, Some (td_days span))
              end
          end
      end
  end.

(** *** Repository metrics assembler *)

(** The dictionary merged into the input row at the Emit step. *)
Definition derived_fields (repo_info : RepoInfo) (created_at : option string)
    (repo_age_days : option Z) (open_issues closed_issues total_issues
     issues_opened_last_6m : option Z) (avg_issue_close_time_days : option Q)
    (total_commits : option Z) (latest_commit_date : option string)
    (days_of_activity : option Z) (commits_last_6m : Z)
    (unique_committers : PySet) : Dict :=
  [ ("language", opt_str (ri_language repo_info));
    ("createdAt", opt_str created_at);
    ("repoAge", opt_int repo_age_days);
    ("forks", opt_int (ri_forks_count repo_info));
    ("watchers", opt_int (ri_watchers_count repo_info));
    ("stars", opt_int (ri_stargazers_count repo_info));
    ("openIssues",
      match open_issues with
      | Some n => VInt n
      | None => opt_int (ri_open_issues_count repo_info)
      end);
    ("closedIssues", VInt (default 0 closed_issues));
    ("totalIssues", VInt (default 0 total_issues));
    ("issuesOpenedLast6Months", VInt (default 0 issues_opened_last_6m));
    ("AvgIssueCloseTime",
      match avg_issue_close_time_days with
      | Some avg => VFloat avg
      | None => VInt 0
      end);
    ("commits", opt_int total_commits);
    ("dateOfLastCommit", opt_str latest_commit_date);
    ("daysOfActivity", opt_int days_of_activity);
    ("commitsInLast6Months", VInt commits_last_6m);
    ("committersParticipation",
      match unique_committers with
      | [] => VInt 0
      | _ :: _ => VInt (set_len unique_committers)
      end) ].

(** The body of the loop of [get_gh_data] once the repository's metadata
    is in hand: fetch, aggregate, and build the record. *)
Definition collect_repo (fuel : nat) (six_months_ago : datetime)
    (six_months_iso : string) (row : Dict) (owner repo : string)
    (repo_info : RepoInfo) : M Dict :=
  total_commits <- _get_total_commits_count owner repo ;;
  latest_commit_date <- _get_latest_commit_date owner repo ;;
  recent_commits <- _collect_commits_since fuel owner repo six_months_iso ;;
  window <- lift (window_loop six_months_ago recent_commits 0 []) ;;
  let '(commits_last_6m, unique_commit_days) := window in
  all_commits <- _collect_all_commits fuel owner repo ;;
  let unique_committers := committers_loop all_commits [] in
  total_issues <- _search_issues_count owner repo "type:issue" ;;
  open_issues <- _search_issues_count owner repo "type:issue state:open" ;;
  closed_issues <- _search_issues_count owner repo "type:issue state:closed" ;;
  issues_opened_last_6m <-
    _search_issues_count owner repo
      ("type:issue created:>=" +:+ date_isoformat six_months_ago) ;;
  closed_recent_items <-
    _fetch_closed_issues_for_average fuel owner repo (isoformat six_months_ago) ;;
  close_deltas <- lift (close_deltas_loop six_months_ago closed_recent_items []) ;;
  let avg_issue_close_time_days := avg_issue_close_time close_deltas in
  let created_at := ri_created_at repo_info in
  ages <- repo_age_block created_at latest_commit_date ;;
  let '(repo_age_days, days_of_activity) := ages in
  ret (dict_union row
         (derived_fields repo_info created_at repo_age_days open_issues
            closed_issues total_issues issues_opened_last_6m
            avg_issue_close_time_days total_commits latest_commit_date
            days_of_activity commits_last_6m unique_committers)).

(** The [for _, row in df.iterrows()] loop; [repo_data] is the list the
    records are appended to. *)
Fixpoint rows_loop (fuel : nat) (six_months_ago : datetime)
    (six_months_iso : string) (df : list Dict) (repo_data : list Dict)
  : M (list Dict) :=
  match df with
  | [] => ret repo_data
  | row :: df' =>
      match dict_get row "Github_links" with
      | Some (VStr github_url) =>
          match pattern_search github_url with
          | None => rows_loop fuel six_months_ago six_months_iso df' repo_data
          | Some (owner, repo) =>
              repo_resp <- _safe_request (RepoApi owner repo) None ;;
              if negb (status_code repo_resp =? 200) then
                rows_loop fuel six_months_ago six_months_iso df' repo_data
              else
                record <- collect_repo fuel six_months_ago six_months_iso
                            row owner repo (json repo_resp) ;;
                rows_loop fuel six_months_ago six_months_iso df'
                  (repo_data ++ [record])
          end
      | _ => rows_loop fuel six_months_ago six_months_iso df' repo_data
      end
  end.

(** [get_gh_data], from the rows read from the input table to the list
    [repo_data] handed to the output table. *)
Definition get_gh_data (fuel : nat) (df : list Dict) : M (list Dict) :=
  now <- datetime_now_utc ;;
  let six_months_ago := dt_minus_days now 180 in
  let six_months_iso := isoformat six_months_ago in
  rows_loop fuel six_months_ago six_months_iso df [].

End Collector.

(** ** A concrete environment

    Instances of the library functions, a clock and scripted servers, on
    which the collector can be run.  The parsers accept the formats GitHub
    emits and reject everything else. *)

Module Sample.

Definition digit_of (a : ascii) : option Z :=
  let n := Z.of_nat (nat_of_ascii a) in
  if (48 <=? n) && (n <=? 57) then Some (n - 48) else None.

Fixpoint digits (s : string) (acc : Z) : option Z :=
  match s with
  | EmptyString => Some acc
  | String a s' =>
      match digit_of a with
      | Some d => digits s' (10 * acc + d)
      | None => None
      end
  end.

(** [int(s)] on an optionally signed run of decimal digits. *)
Definition int (s : string) : option Z :=
  match s with
  | EmptyString => None
  | String "-" (String a s') => Z.opp <$> digits (String a s') 0
  | String "+" (String a s') => digits (String a s') 0
  | _ => digits s 0
  end.

(** Days since 1970-01-01 of a date of the proleptic Gregorian calendar. *)
Definition days_from_civil (y m d : Z) : Z :=
  let y' := if m <=? 2 then y - 1 else y in
  let era := y' / 400 in
  let yoe := y' - era * 400 in
  let doy := (153 * (if 2 <? m then m - 3 else m + 9) + 2) / 5 + d - 1 in
  let doe := yoe * 365 + yoe / 4 - yoe / 100 + doy in
  era * 146097 + doe - 719468.

Definition civil_from_days (z : Z) : Z * Z * Z :=
  let z' := z + 719468 in
  let era := z' / 146097 in
  let doe := z' - era * 146097 in
  let yoe := (doe - doe / 1460 + doe / 36524 - doe / 146096) / 365 in
  let doy := doe - (365 * yoe + yoe / 4 - yoe / 100) in
  let mp := (5 * doy + 2) / 153 in
  let d := doy - (153 * mp + 2) / 5 + 1 in
  let m := if mp <? 10 then mp + 3 else mp - 9 in
  let y := yoe + era * 400 in
  (if m <=? 2 then y + 1 else y, m, d).

Definition is_leap (y : Z) : bool :=
  ((y mod 4 =? 0) && negb (y mod 100 =? 0)) || (y mod 400 =? 0).

Definition days_in_month (y m : Z) : Z :=
  if m =? 2 then (if is_leap y then 29 else 28)
  else if (m =? 4) || (m =? 6) || (m =? 9) || (m =? 11) then 30
  else 31.

(** The number written in the [len] characters of [s] from [pos]. *)
Definition field (s : string) (pos len : nat) : option Z :=
  let f := String.substring pos len s in
  if Nat.eqb (String.length f) len then digits f 0 else None.

Definition char_at (s : string) (pos : nat) (c : ascii) : bool :=
  match String.get pos s with
  | Some a => Ascii.eqb a c
  | None => false
  end.

(** [datetime.fromisoformat] on [YYYY-MM-DDTHH:MM:SS], naive, and on the
    same followed by [+00:00], aware; everything else is rejected. *)
Definition parse_iso (s : string) : option datetime :=
  let n := String.length s in
  let aware := Nat.eqb n 25 && String.eqb (String.substring 19 6 s) "+00:00" in
  if Nat.eqb n 19 || aware then
    match field s 0 4, field s 5 2, field s 8 2,
          field s 11 2, field s 14 2, field s 17 2 with
    | Some y, Some mo, Some d, Some hh, Some mi, Some ss =>
        if char_at s 4 "-" && char_at s 7 "-" && char_at s 10 "T"
           && char_at s 13 ":" && char_at s 16 ":"
           && (1 <=? y) && (1 <=? mo) && (mo <=? 12)
           && (1 <=? d) && (d <=? days_in_month y mo)
           && (hh <? 24) && (mi <? 60) && (ss <? 60)
        then Some {| wall := (days_from_civil y mo d * 86400
                              + hh * 3600 + mi * 60 + ss) * 1000000;
                     utcoffset := if aware then Some 0 else None |}
        else None
    | _, _, _, _, _, _ => None
    end
  else None.

(** [n] in [width] decimal digits, zero-padded. *)
Fixpoint pad (width : nat) (n : Z) (acc : string) : string :=
  match width with
  | O => acc
  | S w =>
      pad w (n / 10) (String (ascii_of_nat (48 + Z.to_nat (n mod 10))) acc)
  end.

Definition format_date (dt : datetime) : string :=
  let '(y, m, d) := civil_from_days (wall dt / day_us) in
  pad 4 y "" +:+ "-" +:+ pad 2 m "" +:+ "-" +:+ pad 2 d "".

Definition format_iso (dt : datetime) : string :=
  let us := wall dt mod day_us in
  let secs := us / 1000000 in
  let frac := us mod 1000000 in
  format_date dt +:+ "T"
  +:+ pad 2 (secs / 3600) "" +:+ ":" +:+ pad 2 (secs / 60 mod 60) ""
  +:+ ":" +:+ pad 2 (secs mod 60) ""
  +:+ (if frac =? 0 then "" else "." +:+ pad 6 frac "")
  +:+ match utcoffset dt with
      | None => ""
      | Some off =>
          let mins := Z.abs off / 60000000 in
          (if off <? 0 then "-" else "+")
          +:+ pad 2 (mins / 60) "" +:+ ":" +:+ pad 2 (mins mod 60) ""
      end.

(** The first [page=] item of the query part of [u]. *)
Definition query_page_of (u : string) : option string :=
  match Str.split "?" u with
  | _ :: q :: _ =>
      match List.filter (Str.is_prefix "page=") (Str.split "&" q) with
      | item :: _ => nonempty (Some (Str.drop 5 item))
      | [] => None
      end
  | _ => None
  end.

(** 2026-11-04T00:00:00Z, in microseconds. *)
Definition t0 : Z := 1793750400 * 1000000.

(** A clock that starts at [t0] and advances by what the program sleeps. *)
Definition wall_clock (h : History) : Z :=
  fold_left
    (fun t ev =>
       match ev with
       | EvSleep s => t + Qfloor (s * (1000000 # 1))
       | _ => t
       end)
    h t0.

(** *** Scripted servers *)

Definition respond {B} (status : Z) (hdrs : gmap string string) (body : B)
  : Attempt B :=
  Responded {| status_code := status; headers := hdrs; json := body |}.

Definition no_info : RepoInfo :=
  {| ri_language := None; ri_created_at := None; ri_forks_count := None;
     ri_watchers_count := None; ri_stargazers_count := None;
     ri_open_issues_count := None |}.

(** The body of an error response, which the collector never reads. *)
Definition no_body (e : Endpoint) : Json e :=
  match e with
  | RepoApi _ _ => no_info
  | CommitsApi _ _ => []
  | SearchIssuesApi => {| total_count := None; items := [] |}
  end.

Definition param_int (params : option (gmap string PVal)) (k : string)
    (dflt : Z) : Z :=
  match params with
  | Some p => match p !! k with Some (PInt n) => n | _ => dflt end
  | None => dflt
  end.

Definition page_of {A} (params : option (gmap string PVal)) (l : list A)
  : list A :=
  let per_page := param_int params "per_page" 30 in
  let page := param_int params "page" 1 in
  firstn (Z.to_nat per_page) (skipn (Z.to_nat ((page - 1) * per_page)) l).

(** The number [n >= 0] in decimal. *)
Definition show (n : Z) : string :=
  match Str.lstrip "0" (pad 20 n "") with
  | EmptyString => "0"
  | s => s
  end.

(** The [Link] header of a listing of [total] items, when it has more than
    one page. *)
Definition link_header (params : option (gmap string PVal)) (total : Z)
  : gmap string string :=
  let per_page := param_int params "per_page" 30 in
  let last := (total + per_page - 1) / per_page in
  if 1 <? last then
    {[ "Link" :=
         "<https://api.github.com/repositories/1/commits?per_page="
         +:+ show per_page +:+ "&page=" +:+ show last +:+ ">; "
         +:+ rel_last ]}
  else ∅.

(** What a repository looks like to the three resources. *)
Record Fixture := {
  repo_status : Z;
  repo_info : RepoInfo;
  commits_status : Z;
  commits : list CommitRecord;
  search_status : Z;
  issues : list IssueRecord
}.

(** A server that answers every request from the fixture, with the status
    codes it prescribes. *)
Definition serve (fx : Fixture) (e : Endpoint) (h : History)
    (params : option (gmap string PVal)) : Attempt (Json e) :=
  match e return Attempt (Json e) with
  | RepoApi _ _ => respond (repo_status fx) ∅ (repo_info fx)
  | CommitsApi _ _ =>
      if commits_status fx =? 200 then
        respond 200 (link_header params (Z.of_nat (length (commits fx))))
          (page_of params (commits fx))
      else respond (commits_status fx) ∅ []
  | SearchIssuesApi =>
      if search_status fx =? 200 then
        respond 200 ∅
          {| total_count := Some (Z.of_nat (length (issues fx)));
             items := page_of params (issues fx) |}
      else respond (search_status fx) ∅ {| total_count := None; items := [] |}
  end.

(** A server that cannot be reached. *)
Definition down (e : Endpoint) (h : History)
    (params : option (gmap string PVal)) : Attempt (Json e) :=
  Failed ConnectionError.

(** A server that answers [status], with [hdrs], to the first request of
    the run and serves the fixture afterwards. *)
Definition first_then (status : Z) (hdrs : gmap string string) (fx : Fixture)
    (e : Endpoint) (h : History) (params : option (gmap string PVal))
  : Attempt (Json e) :=
  match h with
  | [] => respond status hdrs (no_body e)
  | _ :: _ => serve fx e h params
  end.

Definition env_of
    (server : forall e : Endpoint,
        History -> option (gmap string PVal) -> Attempt (Json e)) : Env :=
  {| upstream := server; clock := wall_clock; py_int := int;
     fromisoformat := parse_iso; isoformat := format_iso;
     date_isoformat := format_date; page_query := query_page_of |}.

(** Two hash seeds that order every pair of distinct strings oppositely
    often enough: by length, and by the negated length. *)
Definition seed_a : HashSeed := {| str_hash s := Z.of_nat (String.length s) |}.
Definition seed_b : HashSeed := {| str_hash s := - Z.of_nat (String.length s) |}.

End Sample.

(** ** Scenarios

    Small worlds the collector is run on in the examples below. *)

Module Scenario.
Import Sample.

Definition alice_undated : CommitRecord :=
  {| author_login := Some "alice"; committer_login := None;
     commit_committer_email := None; commit_committer_date := None |}.

Definition info_2020 : RepoInfo :=
  {| ri_language := Some "Python";
     ri_created_at := Some "2020-01-01T00:00:00Z";
     ri_forks_count := Some 1; ri_watchers_count := Some 2;
     ri_stargazers_count := Some 3; ri_open_issues_count := Some 4 |}.

(** A repository that answers 403, without rate-limit headers, to
    everything. *)
Definition forbidden : Fixture :=
  {| repo_status := 403; repo_info := no_info; commits_status := 403;
     commits := []; search_status := 403; issues := [] |}.

(** A healthy repository with one undated commit and no issue. *)
Definition quiet : Fixture :=
  {| repo_status := 200; repo_info := info_2020; commits_status := 200;
     commits := [alice_undated]; search_status := 200; issues := [] |}.

(** The headers of a rate-limit response whose quota comes back five
    seconds after [t0]. *)
Definition quota_headers : gmap string string :=
  <[ "X-RateLimit-Remaining" := "0" ]> {[ "X-RateLimit-Reset" := "1793750405" ]}.

(** A repository with 250 commits. *)
Definition big : Fixture :=
  {| repo_status := 200; repo_info := info_2020; commits_status := 200;
     commits := repeat alice_undated 250; search_status := 200; issues := [] |}.

(** A repository whose only commit carries a date that is no ISO date. *)
Definition bob_misdated : CommitRecord :=
  {| author_login := None; committer_login := Some "bob";
     commit_committer_email := Some "bob@example.org";
     commit_committer_date := Some "yesterday" |}.

Definition misdated : Fixture :=
  {| repo_status := 200; repo_info := info_2020; commits_status := 200;
     commits := [bob_misdated]; search_status := 200; issues := [] |}.

(** An empty repository: GitHub answers 409 to its commit listing. *)
Definition empty_repo : Fixture :=
  {| repo_status := 200; repo_info := info_2020; commits_status := 409;
     commits := []; search_status := 200; issues := [] |}.

(** Two issues, closed two and four days after they were opened, both
    inside the window that ends at [t0]. *)
Definition two_closed : list IssueRecord :=
  [ {| it_created_at := Some "2026-10-01T00:00:00Z";
       it_closed_at := Some "2026-10-03T00:00:00Z" |};
    {| it_created_at := Some "2026-10-10T12:00:00Z";
       it_closed_at := Some "2026-10-14T12:00:00Z" |} ].

Definition with_issues : Fixture :=
  {| repo_status := 200; repo_info := info_2020; commits_status := 200;
     commits := [alice_undated]; search_status := 200; issues := two_closed |}.

Definition the_repo : Endpoint := RepoApi "o" "r".

Definition the_rows : list Dict := [[("Github_links", VStr "https://github.com/o/r")]].

Definition row_of (link : string) : Dict := [("Github_links", VStr link)].

End Scenario.

(** * Specification vocabulary *)

(** A response that makes [_respect_rate_limit] wait for the quota. *)
Definition rate_limited {B} (r : Response B) (reset_str : string) : Prop :=
  headers r !! "X-RateLimit-Remaining" = Some "0"
  /\ headers r !! "X-RateLimit-Reset" = Some reset_str
  /\ reset_str <> "".

Definition not_rate_limited {B} (r : Response B) : Prop :=
  headers r !! "X-RateLimit-Remaining" <> Some "0"
  \/ nonempty (headers r !! "X-RateLimit-Reset") = None.

(** Every GET among [evs] is a GET of [e] with [params]. *)
Definition gets_only (e : Endpoint) (params : option (gmap string PVal))
    (evs : History) : Prop :=
  Forall (fun ev => forall u p, ev = EvGet u p -> u = url_of e /\ p = params) evs.

Definition well_fuelled {A} (r : Outcome A * History) : Prop :=
  r.1 <> OutOfFuel.

Definition outcome_map {A B} (f : A -> B) (o : Outcome A) : Outcome B :=
  match o with
  | Ok a => Ok (f a)
  | Raise e => Raise e
  | OutOfFuel => OutOfFuel
  end.

(** The page a GET asks for. *)
Definition page_of_event (ev : Event) : option Z :=
  match ev with
  | EvGet _ (Some params) =>
      match params !! "page" with
      | Some (PInt page) => Some page
      | _ => None
      end
  | _ => None
  end.

(** The pages asked for along a history, one entry per GET. *)
Definition requested_pages (evs : History) : list Z := omap page_of_event evs.

(** From page [p] on, each GET asks for the page of the GET before it (the
    executor trying again) or for the next one. *)
Fixpoint steps (p : Z) (pages : list Z) : Prop :=
  match pages with
  | [] => True
  | q :: pages' => (q = p \/ q = p + 1) /\ steps q pages'
  end.

(** The pages are asked for in increasing order, from [p], none skipped. *)
Definition walk_order (p : Z) (pages : list Z) : Prop :=
  match pages with
  | [] => True
  | q :: pages' => q = p /\ steps p pages'
  end.

Section AggregatorSpec.
Context {env : Env}.

(** The committer timestamp of [c] is missing, or is no ISO date. *)
Definition timestamp_unusable (c : CommitRecord) : Prop :=
  nonempty (commit_committer_date c) = None
  \/ exists date_str,
       nonempty (commit_committer_date c) = Some date_str
       /\ parse_date date_str = None.


End AggregatorSpec.

Section WalkSpec.
Context {env : Env}.

(** The server holds [cs] and hands it out, 100 entries a page, on the first
    three pages. *)
Definition serves_in_pages (owner repo : string)
    (params_of : Z -> gmap string PVal) (cs : list CommitRecord) : Prop :=
  forall page h, 1 <= page <= 3 ->
    exists hdrs,
      upstream (CommitsApi owner repo) h (Some (params_of page))
      = Responded {| status_code := 200; headers := hdrs;
                     json := firstn 100 (skipn (Z.to_nat ((page - 1) * 100)) cs) |}.

(** What is claimed of an exhaustive commit page walk [walk], whose loop is
    [walk_commits] with the query parameters [params_of]. *)
Record page_walk_spec (owner repo : string)
    (params_of : Z -> gmap string PVal)
    (walk : nat -> M (list CommitRecord)) : Prop := {
  (** it starts at page 1 with nothing accumulated *)
  pw_start : forall fuel, walk fuel = walk_commits owner repo params_of fuel 1 [];
  (** its GETs ask for the pages in increasing order from 1 *)
  pw_order : forall fuel h,
    exists evs, (walk fuel h).2 = h ++ evs /\ walk_order 1 (requested_pages evs);
  (** a page that is not a 200 ends the walk with what was accumulated *)
  pw_stop_status : forall fuel page commits h resp h1,
    _safe_request (CommitsApi owner repo) (Some (params_of page)) h = (Ok resp, h1) ->
    status_code resp <> 200 ->
    walk_commits owner repo params_of (S fuel) page commits h = (Ok commits, h1);
  (** so does an empty page *)
  pw_stop_empty : forall fuel page commits h resp h1,
    _safe_request (CommitsApi owner repo) (Some (params_of page)) h = (Ok resp, h1) ->
    status_code resp = 200 -> json resp = [] ->
    walk_commits owner repo params_of (S fuel) page commits h = (Ok commits, h1);
  (** a page shorter than 100 is added, and ends the walk *)
  pw_stop_short : forall fuel page commits h resp h1,
    _safe_request (CommitsApi owner repo) (Some (params_of page)) h = (Ok resp, h1) ->
    status_code resp = 200 -> json resp <> [] ->
    (length (json resp) < 100)%nat ->
    walk_commits owner repo params_of (S fuel) page commits h
    = (Ok (commits ++ json resp), h1);
  (** a full page is added and the next page is asked for *)
  pw_next : forall fuel page commits h resp h1,
    _safe_request (CommitsApi owner repo) (Some (params_of page)) h = (Ok resp, h1) ->
    status_code resp = 200 -> (100 <= length (json resp))%nat ->
    walk_commits owner repo params_of (S fuel) page commits h
    = walk_commits owner repo params_of fuel (page + 1) (commits ++ json resp) h1;
  (** 250 commits take exactly three GETs, for pages 1, 2 and 3 *)
  pw_250 : forall cs fuel h,
    length cs = 250%nat -> serves_in_pages owner repo params_of cs ->
    (3 <= fuel)%nat ->
    let u := url_of (CommitsApi owner repo) in
    walk fuel h
    = (Ok cs, h ++ [EvGet u (Some (params_of 1)); EvGet u (Some (params_of 2));
                    EvGet u (Some (params_of 3))])
}.

End WalkSpec.

(** ** Vocabulary of the further properties *)

Definition is_get (ev : Event) : bool :=
  match ev with
  | EvGet _ _ => true
  | _ => false
  end.

(** The number of GETs along a history. *)
Definition get_count (evs : History) : nat := length (filter is_get evs).

(** A status the executor neither returns at once nor treats as a possible
    rate limit. *)
Definition plain_failure (status : Z) : Prop :=
  status <> 403 /\ status <> 200 /\ status <> 201.

Section FurtherSpec.
Context {env : Env}.

(** The server holds [cs] and hands it out, 100 entries a page, on every
    page. *)
Definition serves_all_pages (owner repo : string)
    (params_of : Z -> gmap string PVal) (cs : list CommitRecord) : Prop :=
  forall page h, 1 <= page ->
    exists hdrs,
      upstream (CommitsApi owner repo) h (Some (params_of page))
      = Responded {| status_code := 200; headers := hdrs;
                     json := firstn 100 (skipn (Z.to_nat ((page - 1) * 100)) cs) |}.

(** One GET for each of [n] pages, from page [first] on. *)
Fixpoint page_gets (u : string) (params_of : Z -> gmap string PVal)
    (first : Z) (n : nat) : History :=
  match n with
  | O => []
  | S n' => EvGet u (Some (params_of first)) :: page_gets u params_of (first + 1) n'
  end.

(** The commit is one the window loop counts: its committer date is there,
    parses, and is not before [six_months_ago]. *)
Definition dated_in_window (six_months_ago : datetime) (c : CommitRecord) : bool :=
  match nonempty (commit_committer_date c) with
  | Some date_str =>
      match parse_date date_str with
      | Some dt =>
          match dt_ge dt six_months_ago with
          | Ok true => true
          | _ => false
          end
      | None => false
      end
  | None => false
  end.

(** The committer date of the commit parses to a datetime without a UTC
    offset. *)
Definition naive_dated (c : CommitRecord) : Prop :=
  exists date_str dt,
    nonempty (commit_committer_date c) = Some date_str
    /\ parse_date date_str = Some dt
    /\ utcoffset dt = None.

(** The link of the row names a repository. *)
Definition resolvable (row : Dict) : Prop :=
  exists github_url owner repo,
    dict_get row "Github_links" = Some (VStr github_url)
    /\ pattern_search github_url = Some (owner, repo).

End FurtherSpec.

(** The keys the Emit step writes, in the order it writes them. *)
Definition derived_keys : list string :=
  [ "language"; "createdAt"; "repoAge"; "forks"; "watchers"; "stars";
    "openIssues"; "closedIssues"; "totalIssues"; "issuesOpenedLast6Months";
    "AvgIssueCloseTime"; "commits"; "dateOfLastCommit"; "daysOfActivity";
    "commitsInLast6Months"; "committersParticipation" ].

(** The URLs the collector may ask for on behalf of a row: those of the
    repository its link names, and the issue search. *)
Definition row_urls (row : Dict) : list string :=
  match dict_get row "Github_links" with
  | Some (VStr github_url) =>
      match pattern_search github_url with
      | Some (owner, repo) =>
          [url_of (RepoApi owner repo); url_of (CommitsApi owner repo);
           url_of SearchIssuesApi]
      | None => []
      end
  | _ => []
  end.

(** Every GET among [evs] asks for one of [urls]. *)
Definition gets_within (urls : list string) (evs : History) : Prop :=
  Forall (fun ev => forall u p, ev = EvGet u p -> In u urls) evs.

(** The computation only appends to the history, and GETs of [urls] only. *)
Definition stays_within {A} (urls : list string) (m : M A) : Prop :=
  forall h, exists evs, (m h).2 = h ++ evs /\ gets_within urls evs.

(** The string holds no ['/']. *)
Fixpoint slashless (s : string) : Prop :=
  match s with
  | EmptyString => True
  | String a s' => a <> "/"%char /\ slashless s'
  end.

(** ** Further scenarios *)

Module Cases.
Import Sample.

(** The headers of a rate-limit response whose reset time is no number. *)
Definition garbled_quota_headers : gmap string string :=
  <[ "X-RateLimit-Remaining" := "0" ]> {[ "X-RateLimit-Reset" := "soon" ]}.

(** A server that answers every request with a rate-limit 403 whose quota
    comes back five seconds after [t0]. *)
Definition throttled (e : Endpoint) (h : History)
    (params : option (gmap string PVal)) : Attempt (Json e) :=
  respond 403 Scenario.quota_headers (no_body e).

(** A repository that answers 500 to everything. *)
Definition broken : Fixture :=
  {| repo_status := 500; repo_info := no_info; commits_status := 500;
     commits := []; search_status := 500; issues := [] |}.

(** A repository whose metadata request is answered 201. *)
Definition created : Fixture :=
  {| repo_status := 201; repo_info := Scenario.info_2020; commits_status := 200;
     commits := [Scenario.alice_undated]; search_status := 200; issues := [] |}.

(** A healthy repository whose issue searches are answered 422. *)
Definition unsearchable : Fixture :=
  {| repo_status := 200; repo_info := Scenario.info_2020; commits_status := 200;
     commits := [Scenario.alice_undated]; search_status := 422; issues := [] |}.

(** Commits dated inside the window that ends at [t0], before it, and
    without a UTC offset. *)
Definition carol_recent : CommitRecord :=
  {| author_login := Some "carol"; committer_login := Some "web-flow";
     commit_committer_email := Some "carol@example.org";
     commit_committer_date := Some "2026-10-01T12:00:00Z" |}.

Definition dave_old : CommitRecord :=
  {| author_login := None; committer_login := None;
     commit_committer_email := Some "dave@example.org";
     commit_committer_date := Some "2020-01-01T00:00:00Z" |}.

Definition erin_naive : CommitRecord :=
  {| author_login := Some "erin"; committer_login := None;
     commit_committer_email := None;
     commit_committer_date := Some "2026-10-01T12:00:00" |}.

(** The start of the window of a run that begins at [t0]. *)
Definition window_start : datetime :=
  {| wall := t0 - 180 * day_us; utcoffset := Some 0 |}.

(** A repository with commits inside and outside the window, and two
    closed issues. *)
Definition lively : Fixture :=
  {| repo_status := 200; repo_info := Scenario.info_2020; commits_status := 200;
     commits := [carol_recent; Scenario.alice_undated; Scenario.bob_misdated;
                 dave_old; carol_recent];
     search_status := 200; issues := Scenario.two_closed |}.

(** Rows whose link is missing, or names no GitHub repository. *)
Definition unlinked : list Dict :=
  [ Scenario.row_of "https://gitlab.com/o/r"; [("Github_links", VNaN)];
    [("Title", VStr "a game")] ].

End Cases.

(** * Properties *)

(** ** The embedding at work *)

Example pattern_search_link :
  pattern_search "https://github.com/henriquecanella/GAS.git"
  = Some ("henriquecanella", "GAS.git").
Proof. vm_compute. reflexivity. Qed.

Example pattern_search_no_repo : pattern_search "https://github.com/someone" = None.
Proof. vm_compute. reflexivity. Qed.

Example pattern_search_other_site : pattern_search "https://gitlab.com/o/r" = None.
Proof. vm_compute. reflexivity. Qed.

Example split_keeps_empty_parts : Str.split "," "a,b,,c" = ["a"; "b"; ""; "c"].
Proof. vm_compute. reflexivity. Qed.

Example url_part_of_link :
  Str.rstrip ">" (Str.lstrip "<" (Str.strip " <https://x/y?page=7> "))
  = "https://x/y?page=7".
Proof. vm_compute. reflexivity. Qed.

Example parse_github_date :
  Sample.parse_iso (Str.replace "Z" "+00:00" "2026-11-04T00:00:00Z")
  = Some {| wall := Sample.t0; utcoffset := Some 0 |}.
Proof. vm_compute. reflexivity. Qed.

Example six_months_before_t0 :
  Sample.format_iso
    (dt_minus_days {| wall := Sample.t0; utcoffset := Some 0 |} 180)
  = "2026-05-08T00:00:00+00:00".
Proof. vm_compute. reflexivity. Qed.

Example round_to_cents :
  py_round2 (1 # 3) = (33 # 100)%Q /\ py_round2 (8 # 3) = (267 # 100)%Q.
Proof. vm_compute. split; reflexivity. Qed.

(** The commit count of the 250-commit repository is read off the [Link]
    header of a one-entry page. *)
Example total_commits_from_link_header :
  (@_get_total_commits_count (Sample.env_of (Sample.serve Scenario.big))
     "o" "r" []).1
  = Ok (Some 250).
Proof. vm_compute. reflexivity. Qed.

(** A whole run over one healthy repository with one undated commit. *)
Example quiet_run :
  (@get_gh_data (Sample.env_of (Sample.serve Scenario.quiet)) Sample.seed_a 10
     Scenario.the_rows []).1
  = Ok [[("Github_links", VStr "https://github.com/o/r");
         ("language", VStr "Python");
         ("createdAt", VStr "2020-01-01T00:00:00Z");
         ("repoAge", VInt 2499); ("forks", VInt 1); ("watchers", VInt 2);
         ("stars", VInt 3); ("openIssues", VInt 0); ("closedIssues", VInt 0);
         ("totalIssues", VInt 0); ("issuesOpenedLast6Months", VInt 0);
         ("AvgIssueCloseTime", VInt 0); ("commits", VInt 1);
         ("dateOfLastCommit", VNone); ("daysOfActivity", VNone);
         ("commitsInLast6Months", VInt 0);
         ("committersParticipation", VInt 1)]].
Proof. vm_compute. reflexivity. Qed.

(** ** The monad *)

Lemma bind_lift {A B} (o : Outcome A) (k : A -> M B) h :
  bind (lift o) k h =
    match o with
    | Ok a => k a h
    | Raise e => (Raise e, h)
    | OutOfFuel => (OutOfFuel, h)
    end.
Proof. unfold bind, lift. now destruct o. Qed.

Lemma bind_ext {A B} (m : M A) (k1 k2 : A -> M B) h :
  (forall a h1, k1 a h1 = k2 a h1) -> bind m k1 h = bind m k2 h.
Proof.
  intros Hk. unfold bind. destruct (m h) as [[a | e |] h1]; auto.
Qed.

(** A bind that ends well went through both of its halves. *)
Lemma bind_inv_ok {A B} (m : M A) (k : A -> M B) h b h2 :
  bind m k h = (Ok b, h2) ->
  exists a h1, m h = (Ok a, h1) /\ k a h1 = (Ok b, h2).
Proof.
  unfold bind. destruct (m h) as [[a | e |] h1]; intros Hk; try discriminate.
  now exists a, h1.
Qed.

(** ** Resilient request executor *)

Section Executor.
Context {env : Env}.

Lemma nonempty_Some (s : string) : s <> "" -> nonempty (Some s) = Some s.
Proof. destruct s; [congruence | reflexivity]. Qed.

Lemma respect_rate_limit_quiet {B} (r : Response B) h :
  status_code r = 403 -> not_rate_limited r ->
  _respect_rate_limit r h = (Ok tt, h).
Proof.
  intros Hs Hn. unfold _respect_rate_limit. rewrite Hs. simpl.
  destruct Hn as [Hrem | Hreset].
  - rewrite bool_decide_eq_false_2 by assumption. reflexivity.
  - rewrite Hreset. now destruct (bool_decide _).
Qed.

(** A wait of a whole number of seconds: slept when it fits the range of
    [time.sleep], an [OverflowError] when it is longer. *)
Lemma time_sleep_whole (w : Z) h :
  0 <= w -> w * 1000000000 <= sleep_max_ns ->
  time_sleep (inject_Z w) h = (Ok tt, h ++ [EvSleep (inject_Z w)]).
Proof.
  intros H0 Hmax. unfold time_sleep, Qle_bool, sleep_min_ns, sleep_max_ns in *.
  cbn [inject_Z Qmult Qnum Qden Pos.mul]. cbv zeta.
  rewrite !Z.mul_1_r.
  rewrite (proj2 (Z.leb_le _ _)) by lia.
  rewrite (proj2 (Z.leb_le _ _) Hmax).
  rewrite (proj2 (Z.leb_le 0 w) H0). reflexivity.
Qed.

Lemma time_sleep_overflow (w : Z) h :
  sleep_max_ns < w * 1000000000 ->
  time_sleep (inject_Z w) h = (Raise OverflowError, h).
Proof.
  intros Hmax. unfold time_sleep, Qle_bool, sleep_min_ns, sleep_max_ns in *.
  cbn [inject_Z Qmult Qnum Qden Pos.mul]. cbv zeta.
  rewrite !Z.mul_1_r.
  rewrite (proj2 (Z.leb_gt _ _) Hmax). now rewrite andb_false_r.
Qed.

(** A sleep appends at most itself to the history. *)
Lemma time_sleep_trace seconds h :
  exists evs,
    (time_sleep seconds h).2 = h ++ evs
    /\ Forall (fun ev => forall u p, ev <> EvGet u p) evs
    /\ well_fuelled (time_sleep seconds h).
Proof.
  unfold time_sleep, well_fuelled. cbv zeta.
  destruct (_ && _); [destruct (Qle_bool 0 seconds) |];
    [exists [EvSleep seconds] | exists [] ..]; rewrite ?app_nil_r; simpl;
    repeat split; try discriminate; repeat constructor; discriminate.
Qed.

Lemma respect_rate_limit_waits {B} (r : Response B) reset_str reset_ts h :
  status_code r = 403 -> rate_limited r reset_str ->
  py_int reset_str = Some reset_ts ->
  let wait := Z.max 0 (reset_ts - Z.quot (clock h) 1000000) + 1 in
  wait * 1000000000 <= sleep_max_ns ->
  _respect_rate_limit r h =
    (Ok tt, (h ++ [EvClock]) ++ [EvSleep (inject_Z wait)]).
Proof.
  intros Hs (Hrem & Hreset & Hne) Hint wait Hfits. unfold _respect_rate_limit.
  rewrite Hs. simpl. rewrite bool_decide_eq_true_2 by assumption.
  rewrite Hreset, (nonempty_Some _ Hne), Hint.
  unfold time_time_int, bind, read_clock, ret. cbv beta iota.
  apply time_sleep_whole; [lia | exact Hfits].
Qed.

(** A rate-limit wait too long for [time.sleep]: the clock is read, nothing
    is slept, and the [OverflowError] goes up. *)
Lemma respect_rate_limit_overflows {B} (r : Response B) reset_str reset_ts h :
  status_code r = 403 -> rate_limited r reset_str ->
  py_int reset_str = Some reset_ts ->
  let wait := Z.max 0 (reset_ts - Z.quot (clock h) 1000000) + 1 in
  sleep_max_ns < wait * 1000000000 ->
  _respect_rate_limit r h = (Raise OverflowError, h ++ [EvClock]).
Proof.
  intros Hs (Hrem & Hreset & Hne) Hint wait Hlong. unfold _respect_rate_limit.
  rewrite Hs. simpl. rewrite bool_decide_eq_true_2 by assumption.
  rewrite Hreset, (nonempty_Some _ Hne), Hint.
  unfold time_time_int, bind, read_clock, ret. cbv beta iota.
  now apply time_sleep_overflow.
Qed.

(** One iteration of the loop of [_safe_request], by what the attempt
    brought back. *)
Lemma safe_request_loop_step e params n resp h :
  safe_request_loop e params (S n) resp h =
    let h1 := h ++ [EvGet (url_of e) params] in
    match upstream e h params with
    | Responded r =>
        if status_code r =? 403 then
          bind (_respect_rate_limit r)
            (fun _ => safe_request_loop e params n (Some r)) h1
        else if (status_code r =? 200) || (status_code r =? 201) then
          (Ok r, h1)
        else safe_request_loop e params n (Some r) (h1 ++ [EvSleep (3 # 2)])
    | Failed _ => safe_request_loop e params n resp (h1 ++ [EvSleep (3 # 2)])
    end.
Proof.
  simpl. unfold bind at 1, session_get.
  destruct (upstream e h params) as [r | x]; [| reflexivity].
  destruct (status_code r =? 403); [reflexivity |].
  destruct ((status_code r =? 200) || (status_code r =? 201)); reflexivity.
Qed.

Lemma gets_only_app e params evs1 evs2 :
  gets_only e params evs1 -> gets_only e params evs2 ->
  gets_only e params (evs1 ++ evs2).
Proof. apply Forall_app_2. Qed.

Lemma gets_only_quiet e params evs :
  Forall (fun ev => forall u p, ev <> EvGet u p) evs -> gets_only e params evs.
Proof.
  intros Hevs. eapply Forall_impl; [exact Hevs |].
  intros ev Hq u p Hev. now destruct (Hq u p).
Qed.

(** [_respect_rate_limit] reads the clock and sleeps, at most. *)
Lemma respect_rate_limit_trace {B} (r : Response B) h :
  exists evs,
    (_respect_rate_limit r h).2 = h ++ evs
    /\ Forall (fun ev => forall u p, ev <> EvGet u p) evs
    /\ well_fuelled (_respect_rate_limit r h).
Proof.
  assert (Hquiet : forall o : Outcome unit, o <> OutOfFuel ->
    exists evs, (o, h).2 = h ++ evs
      /\ Forall (fun ev => forall u p, ev <> EvGet u p) evs
      /\ well_fuelled (o, h)).
  { intros o Ho. exists []. rewrite app_nil_r. repeat split; [constructor | exact Ho]. }
  unfold _respect_rate_limit.
  destruct (status_code r =? 403); [| now apply Hquiet].
  cbv zeta. destruct (bool_decide _); [| now apply Hquiet].
  destruct (nonempty _) as [reset_str |]; [| now apply Hquiet].
  destruct (py_int reset_str) as [reset_ts |]; [| now apply Hquiet].
  unfold time_time_int, bind, read_clock, ret. cbv beta iota.
  destruct (time_sleep_trace
              (inject_Z (Z.max 0 (reset_ts - Z.quot (clock h) 1000000) + 1))
              (h ++ [EvClock])) as (evs & Hh & Hq & Hf).
  exists ([EvClock] ++ evs). rewrite Hh, <- app_assoc.
  repeat split; [| exact Hf].
  constructor; [discriminate | exact Hq].
Qed.

(** The loop only ever appends to the history; it issues no GET but that
    of its own request, starts with one when it has an attempt left, and
    never runs out of fuel. *)
Lemma safe_request_loop_trace e params n resp h :
  exists evs,
    (safe_request_loop e params n resp h).2 = h ++ evs
    /\ gets_only e params evs
    /\ well_fuelled (safe_request_loop e params n resp h)
    /\ (n <> O -> exists evs', evs = EvGet (url_of e) params :: evs').
Proof.
  revert resp h. induction n as [| n IH]; intros resp h.
  - exists []. rewrite app_nil_r. unfold well_fuelled. simpl.
    destruct resp; simpl; repeat split; try constructor; try discriminate;
      intros []; reflexivity.
  - rewrite safe_request_loop_step. cbv zeta.
    set (h1 := h ++ [EvGet (url_of e) params]).
    assert (Hget : gets_only e params [EvGet (url_of e) params]).
    { constructor; [| constructor]. now intros u p [= <- <-]. }
    assert (Hsleep : gets_only e params [EvSleep (3 # 2)]).
    { constructor; [| constructor]. intros u p [=]. }
    assert (Hrec : forall resp' evs0, gets_only e params evs0 ->
      exists evs,
        (safe_request_loop e params n resp' (h1 ++ evs0)).2 = h ++ evs
        /\ gets_only e params evs
        /\ well_fuelled (safe_request_loop e params n resp' (h1 ++ evs0))
        /\ (S n <> O -> exists evs', evs = EvGet (url_of e) params :: evs')).
    { intros resp' evs0 H0.
      destruct (IH resp' (h1 ++ evs0)) as (evs & Hh & Hg & Hf & _).
      exists ([EvGet (url_of e) params] ++ evs0 ++ evs).
      split; [rewrite Hh; unfold h1; now rewrite <- !app_assoc |].
      repeat split; eauto using gets_only_app. }
    destruct (upstream e h params) as [r | x]; [| apply Hrec, Hsleep].
    destruct (status_code r =? 403).
    + destruct (respect_rate_limit_trace r h1) as (evs0 & Hh & Hq & Hf).
      unfold bind. unfold well_fuelled in Hf.
      destruct (_respect_rate_limit r h1) as [[[] | ex |] h2];
        simpl in Hh, Hf; subst h2.
      * apply Hrec, gets_only_quiet, Hq.
      * exists ([EvGet (url_of e) params] ++ evs0). unfold h1, well_fuelled.
        rewrite <- app_assoc. simpl. repeat split; eauto; try discriminate.
        constructor; [now intros u p [= <- <-] |].
        apply (gets_only_quiet e params), Hq.
      * now destruct Hf.
    + destruct ((status_code r =? 200) || (status_code r =? 201)).
      * exists [EvGet (url_of e) params]. unfold well_fuelled. simpl.
        repeat split; eauto; discriminate.
      * apply Hrec, Hsleep.
Qed.

(** C6, as the code has it.  A 403 response with a zero remaining-quota
    header and a reset-timestamp header makes the executor read the clock
    and, when the wait of [max(0, reset - now) + 1] seconds is one that
    [time.sleep] takes, sleep exactly that long, which is at least 5
    seconds when the reset lies 5 seconds ahead of the clock.  The loop
    then goes on with one attempt less, exactly as after any other failed
    attempt: with an attempt left it issues the same GET again, but after
    the last attempt of the budget it has slept and returns the 403
    response without asking again.  A wait too long for [time.sleep] is an
    [OverflowError] that leaves the executor after the clock was read. *)
Theorem rate_limit_wait_then_retry e params n resp h r reset_str reset_ts :
  upstream e h params = Responded r ->
  status_code r = 403 ->
  rate_limited r reset_str ->
  py_int reset_str = Some reset_ts ->
  let h1 := h ++ [EvGet (url_of e) params] in
  let now := Z.quot (clock h1) 1000000 in
  let wait := Z.max 0 (reset_ts - now) + 1 in
  let h2 := (h1 ++ [EvClock]) ++ [EvSleep (inject_Z wait)] in
  (wait * 1000000000 <= sleep_max_ns ->
   safe_request_loop e params (S n) resp h
     = safe_request_loop e params n (Some r) h2
   /\ (n <> O ->
       exists evs,
         (safe_request_loop e params (S n) resp h).2
           = h2 ++ EvGet (url_of e) params :: evs)
   /\ (n = O -> safe_request_loop e params (S n) resp h = (Ok r, h2)))
  /\ (clock h1 + 5 * 1000000 <= reset_ts * 1000000 -> 5 <= wait)
  /\ (sleep_max_ns < wait * 1000000000 ->
      safe_request_loop e params (S n) resp h
      = (Raise OverflowError, h1 ++ [EvClock])).
Proof.
  intros Hup Hs Hrl Hint h1 now wait h2.
  assert (Hloop : safe_request_loop e params (S n) resp h
                  = bind (_respect_rate_limit r)
                      (fun _ => safe_request_loop e params n (Some r)) h1).
  { rewrite safe_request_loop_step, Hup. cbv zeta. now rewrite Hs. }
  split; [| split].
  - intros Hfits.
    assert (Hstep : safe_request_loop e params (S n) resp h
                    = safe_request_loop e params n (Some r) h2).
    { rewrite Hloop. unfold bind.
      now rewrite (respect_rate_limit_waits r reset_str reset_ts h1 Hs Hrl Hint Hfits). }
    split; [exact Hstep |]. split.
    + intros Hn. rewrite Hstep.
      destruct (safe_request_loop_trace e params n (Some r) h2)
        as (evs & -> & _ & _ & Hhead).
      destruct (Hhead Hn) as [evs' ->]. eauto.
    + intros ->. rewrite Hstep. reflexivity.
  - intros Hahead. subst wait now.
    pose proof (Z.quot_rem' (clock h1) 1000000) as Hqr.
    pose proof (Z.rem_bound_abs (clock h1) 1000000 ltac:(discriminate)) as Hrem.
    lia.
  - intros Hlong. rewrite Hloop. unfold bind.
    now rewrite (respect_rate_limit_overflows r reset_str reset_ts h1 Hs Hrl Hint Hlong).
Qed.

(** C5, as the code has it.  A 403 response that is not a rate-limit
    condition is followed by no sleep at all: the loop goes straight on
    with one attempt less.  The fixed 1.5-second sleep follows a
    transport-level failure and a response whose status is none of 403,
    200 and 201. *)
Theorem plain_403_retries_at_once e params n resp h :
  (forall r, upstream e h params = Responded r ->
     status_code r = 403 -> not_rate_limited r ->
     safe_request_loop e params (S n) resp h
       = safe_request_loop e params n (Some r)
           (h ++ [EvGet (url_of e) params]))
  /\ (forall r, upstream e h params = Responded r ->
      status_code r <> 403 -> status_code r <> 200 -> status_code r <> 201 ->
      safe_request_loop e params (S n) resp h
        = safe_request_loop e params n (Some r)
            ((h ++ [EvGet (url_of e) params]) ++ [EvSleep (3 # 2)]))
  /\ (forall x, upstream e h params = Failed x ->
      safe_request_loop e params (S n) resp h
        = safe_request_loop e params n resp
            ((h ++ [EvGet (url_of e) params]) ++ [EvSleep (3 # 2)])).
Proof.
  split; [| split].
  - intros r Hup Hs Hn. rewrite safe_request_loop_step, Hup. cbv zeta.
    rewrite Hs. simpl. unfold bind.
    now rewrite respect_rate_limit_quiet.
  - intros r Hup H403 H200 H201. rewrite safe_request_loop_step, Hup.
    cbv zeta.
    rewrite (proj2 (Z.eqb_neq _ _) H403), (proj2 (Z.eqb_neq _ _) H200),
      (proj2 (Z.eqb_neq _ _) H201).
    reflexivity.
  - intros x Hup. now rewrite safe_request_loop_step, Hup.
Qed.

End Executor.

(** C1, at the input where the code departs from it.  When every attempt
    ends in a transport-level exception, [resp] is never bound and the final
    [return resp] raises: the caller gets an [UnboundLocalError], not a
    response, after five GETs and five sleeps. *)
Theorem safe_request_unreachable_server_raises e params h :
  let u := url_of e in
  @_safe_request (Sample.env_of Sample.down) e params h
  = (Raise UnboundLocalError,
     h ++ [EvGet u params; EvSleep (3 # 2); EvGet u params; EvSleep (3 # 2);
           EvGet u params; EvSleep (3 # 2); EvGet u params; EvSleep (3 # 2);
           EvGet u params; EvSleep (3 # 2)]).
Proof.
  intros u. unfold _safe_request.
  repeat (rewrite safe_request_loop_step; cbv zeta; simpl upstream; cbv beta iota).
  simpl. unfold raise. now rewrite <- !app_assoc.
Qed.

(** The rate-limit scenario: the quota comes back five seconds after the
    first request; the executor waits six seconds, asks again and returns
    the 200 response. *)
Lemma rate_limit_wait_then_retry_witness :
  let env := Sample.env_of
               (Sample.first_then 403 Scenario.quota_headers Scenario.quiet) in
  let u := url_of Scenario.the_repo in
  (exists evs,
     (@safe_request_loop env Scenario.the_repo None 5 None []).2
     = [EvGet u None; EvClock; EvSleep (6 # 1); EvGet u None] ++ evs)
  /\ @_safe_request env Scenario.the_repo None []
     = (Ok {| status_code := 200; headers := ∅; json := Scenario.info_2020 |},
        [EvGet u None; EvClock; EvSleep (6 # 1); EvGet u None]).
Proof.
  intros env u. split; [| vm_compute; reflexivity].
  assert (Hup : @upstream env Scenario.the_repo [] None
                = Responded {| status_code := 403;
                               headers := Scenario.quota_headers;
                               json := Sample.no_info |})
    by (vm_compute; reflexivity).
  assert (Hrl : @rate_limited RepoInfo
                  {| status_code := 403; headers := Scenario.quota_headers;
                     json := Sample.no_info |} "1793750405")
    by (repeat split; [vm_compute; reflexivity .. | discriminate]).
  assert (Hint : @py_int env "1793750405" = Some 1793750405)
    by (vm_compute; reflexivity).
  destruct (@rate_limit_wait_then_retry env Scenario.the_repo None 4%nat None
              [] _ "1793750405" 1793750405 Hup eq_refl Hrl Hint)
    as (Hwait & _ & _).
  destruct (Hwait ltac:(vm_compute; discriminate)) as (_ & Hretry & _).
  destruct (Hretry ltac:(discriminate)) as [evs Hevs].
  exists evs. rewrite Hevs. vm_compute. reflexivity.
Defined.

(** C6 fails on the code where the rate limit outlasts the budget: the
    fifth 403 is waited for like the others, and then returned; no request
    follows that last wait. *)
Lemma rate_limit_fifth_wait_not_retried_counterexample :
  let u := url_of Scenario.the_repo in
  @_safe_request (Sample.env_of Cases.throttled) Scenario.the_repo None []
  = (Ok {| status_code := 403; headers := Scenario.quota_headers;
           json := Sample.no_info |},
     [EvGet u None; EvClock; EvSleep (6 # 1);
      EvGet u None; EvClock; EvSleep (1 # 1);
      EvGet u None; EvClock; EvSleep (1 # 1);
      EvGet u None; EvClock; EvSleep (1 # 1);
      EvGet u None; EvClock; EvSleep (1 # 1)]).
Proof. vm_compute. reflexivity. Qed.

(** C5 fails on the code: five 403 responses without rate-limit headers are
    fetched back to back, with no sleep between the attempts. *)
Lemma plain_403_no_sleep_counterexample :
  let u := url_of Scenario.the_repo in
  @_safe_request (Sample.env_of (Sample.serve Scenario.forbidden))
     Scenario.the_repo None []
  = (Ok {| status_code := 403; headers := ∅; json := Sample.no_info |},
     [EvGet u None; EvGet u None; EvGet u None; EvGet u None; EvGet u None]).
Proof. vm_compute. reflexivity. Qed.

Lemma plain_403_retries_at_once_witness :
  let env := Sample.env_of (Sample.serve Scenario.forbidden) in
  let r : Response (Json Scenario.the_repo) :=
    {| status_code := 403; headers := ∅; json := Sample.no_info |} in
  @safe_request_loop env Scenario.the_repo None 5 None []
  = @safe_request_loop env Scenario.the_repo None 4 (Some r)
      ([] ++ [EvGet (url_of Scenario.the_repo) None]).
Proof.
  intros env r.
  assert (Hup : @upstream env Scenario.the_repo [] None = Responded r)
    by (vm_compute; reflexivity).
  apply (proj1 (@plain_403_retries_at_once env Scenario.the_repo None 4%nat None [])
           r Hup eq_refl).
  left. vm_compute. discriminate.
Defined.

(** ** Paginator *)

Section Paginator.
Context {env : Env}.

(** An attempt answered by a 200 ends the executor at once. *)
Lemma safe_request_first_ok e params h r :
  upstream e h params = Responded r -> status_code r = 200 ->
  _safe_request e params h = (Ok r, h ++ [EvGet (url_of e) params]).
Proof.
  intros Hup Hs. unfold _safe_request.
  rewrite safe_request_loop_step, Hup. cbv zeta. now rewrite Hs.
Qed.

Lemma walk_commits_step owner repo params_of fuel page commits h :
  walk_commits owner repo params_of (S fuel) page commits h =
    match _safe_request (CommitsApi owner repo) (Some (params_of page)) h with
    | (Ok resp, h1) =>
        if negb (status_code resp =? 200) then (Ok commits, h1)
        else
          match json resp with
          | [] => (Ok commits, h1)
          | _ :: _ =>
              if Z.of_nat (length (json resp)) <? 100
              then (Ok (commits ++ json resp), h1)
              else walk_commits owner repo params_of fuel (page + 1)
                     (commits ++ json resp) h1
          end
    | (Raise e, h1) => (Raise e, h1)
    | (OutOfFuel, h1) => (OutOfFuel, h1)
    end.
Proof.
  simpl. unfold bind at 1.
  destruct (_safe_request _ _ h) as [[resp | e |] h1]; try reflexivity.
  destruct (negb _); [reflexivity |]. cbn [Json] in *.
  destruct (json resp) as [| c batch]; [reflexivity |].
  destruct (Z.of_nat (length (c :: batch)) <? 100); reflexivity.
Qed.

Lemma requested_pages_cons ev evs :
  requested_pages (ev :: evs) =
    match page_of_event ev with
    | Some p => p :: requested_pages evs
    | None => requested_pages evs
    end.
Proof. reflexivity. Qed.

Lemma requested_pages_app evs1 evs2 :
  requested_pages (evs1 ++ evs2) = requested_pages evs1 ++ requested_pages evs2.
Proof. apply omap_app. Qed.

(** The GETs of one call of the executor all ask for the page of its
    parameters, and there is at least one. *)
Lemma safe_request_pages e params page h :
  params !! "page" = Some (PInt page) ->
  exists evs pages,
    (_safe_request e (Some params) h).2 = h ++ evs
    /\ requested_pages evs = page :: pages
    /\ Forall (eq page) pages.
Proof.
  intros Hpage. unfold _safe_request.
  destruct (safe_request_loop_trace e (Some params) 5 None h)
    as (evs & Hh & Hg & _ & Hhead).
  destruct (Hhead ltac:(discriminate)) as [evs' ->].
  exists (EvGet (url_of e) (Some params) :: evs'), (requested_pages evs').
  split; [exact Hh |]. split.
  - rewrite requested_pages_cons. simpl. now rewrite Hpage.
  - apply Forall_cons in Hg as [_ Hg]. clear Hh Hhead.
    induction evs' as [| ev evs' IH]; [constructor |].
    apply Forall_cons in Hg as [Hev Hg]. specialize (IH Hg).
    rewrite requested_pages_cons.
    destruct ev as [u [ps |] | |]; simpl; try exact IH.
    destruct (Hev u (Some ps) eq_refl) as [_ [= ->]].
    rewrite Hpage. now constructor.
Qed.

Lemma steps_block p pages1 pages2 :
  Forall (eq p) pages1 -> walk_order (p + 1) pages2 -> steps p (pages1 ++ pages2).
Proof.
  intros H1 H2. induction H1 as [| q pages1 <- _ IH]; simpl.
  - destruct pages2 as [| q pages2]; [exact I |].
    destruct H2 as [-> H2]. split; [now right | exact H2].
  - split; [now left | exact IH].
Qed.

Lemma walk_order_block p pages1 pages2 :
  Forall (eq p) pages1 -> walk_order (p + 1) pages2 ->
  walk_order p (p :: pages1 ++ pages2).
Proof. intros H1 H2. split; [reflexivity | now apply steps_block]. Qed.

(** The loop of both commit walks asks for the pages in order. *)
Lemma walk_commits_order owner repo params_of fuel page commits h :
  (forall p, params_of p !! "page" = Some (PInt p)) ->
  exists evs,
    (walk_commits owner repo params_of fuel page commits h).2 = h ++ evs
    /\ walk_order page (requested_pages evs).
Proof.
  intros Hparams. revert page commits h.
  induction fuel as [| fuel IH]; intros page commits h.
  - exists []. now rewrite app_nil_r.
  - rewrite walk_commits_step.
    destruct (safe_request_pages (CommitsApi owner repo) (params_of page) page h
                (Hparams page)) as (evs & pages & Hh & Hp & Hall).
    assert (Hblock : walk_order page (requested_pages evs)).
    { rewrite Hp, <- (app_nil_r pages). now apply walk_order_block. }
    destruct (_safe_request _ _ h) as [[resp | e |] h1]; simpl in Hh; subst h1;
      try (exists evs; now split).
    destruct (negb _); [exists evs; now split |].
    destruct (json resp) as [| c batch]; [exists evs; now split |].
    destruct (_ <? _); [exists evs; now split |].
    destruct (IH (page + 1) (commits ++ c :: batch) (h ++ evs)) as (evs' & -> & Ho).
    exists (evs ++ evs'). rewrite <- app_assoc. split; [reflexivity |].
    rewrite requested_pages_app, Hp. now apply walk_order_block.
Qed.

Lemma all_params_page p : all_params p !! "page" = Some (PInt p).
Proof. unfold all_params. now simplify_map_eq. Qed.

Lemma since_params_page since_iso p :
  since_params since_iso p !! "page" = Some (PInt p).
Proof. unfold since_params. now simplify_map_eq. Qed.

Lemma three_pages {A} (cs : list A) :
  length cs = 250%nat ->
  (take 100 (drop 0 cs) ++ take 100 (drop 100 cs)) ++ take 100 (drop 200 cs) = cs.
Proof.
  intros Hlen. rewrite drop_0.
  rewrite (take_ge (drop 200 cs)) by (rewrite length_drop; lia).
  change 200%nat with (100 + 100)%nat. rewrite <- drop_drop.
  now rewrite <- app_assoc, !take_drop.
Qed.

Section PageWalk.
Context (owner repo : string) (params_of : Z -> gmap string PVal).

Lemma walk_stops_on_status fuel page commits h resp h1 :
  _safe_request (CommitsApi owner repo) (Some (params_of page)) h = (Ok resp, h1) ->
  status_code resp <> 200 ->
  walk_commits owner repo params_of (S fuel) page commits h = (Ok commits, h1).
Proof.
  intros Hreq Hs. rewrite walk_commits_step. rewrite Hreq.
  now rewrite (proj2 (Z.eqb_neq _ _) Hs).
Qed.

Lemma walk_stops_on_empty fuel page commits h resp h1 :
  _safe_request (CommitsApi owner repo) (Some (params_of page)) h = (Ok resp, h1) ->
  status_code resp = 200 -> json resp = [] ->
  walk_commits owner repo params_of (S fuel) page commits h = (Ok commits, h1).
Proof.
  intros Hreq Hs Hb. rewrite walk_commits_step. rewrite Hreq, Hs. cbn [Json] in *. now rewrite Hb.
Qed.

Lemma walk_stops_on_short fuel page commits h resp h1 :
  _safe_request (CommitsApi owner repo) (Some (params_of page)) h = (Ok resp, h1) ->
  status_code resp = 200 -> json resp <> [] ->
  (length (json resp) < 100)%nat ->
  walk_commits owner repo params_of (S fuel) page commits h
  = (Ok (commits ++ json resp), h1).
Proof.
  intros Hreq Hs Hb Hlen. rewrite walk_commits_step. rewrite Hreq, Hs. cbn [Json] in *.
  destruct (json resp) as [| c batch]; [congruence |].
  now rewrite (proj2 (Z.ltb_lt _ _)) by lia.
Qed.

Lemma walk_goes_on fuel page commits h resp h1 :
  _safe_request (CommitsApi owner repo) (Some (params_of page)) h = (Ok resp, h1) ->
  status_code resp = 200 -> (100 <= length (json resp))%nat ->
  walk_commits owner repo params_of (S fuel) page commits h
  = walk_commits owner repo params_of fuel (page + 1) (commits ++ json resp) h1.
Proof.
  intros Hreq Hs Hlen. rewrite walk_commits_step. rewrite Hreq, Hs. cbn [Json] in *.
  destruct (json resp) as [| c batch]; [simpl in Hlen; lia |].
  now rewrite (proj2 (Z.ltb_ge _ _)) by lia.
Qed.

(** A walk over 250 commits served 100 a page. *)
Lemma walk_commits_250 cs fuel h :
  length cs = 250%nat -> serves_in_pages owner repo params_of cs ->
  (3 <= fuel)%nat ->
  let u := url_of (CommitsApi owner repo) in
  walk_commits owner repo params_of fuel 1 [] h
  = (Ok cs, h ++ [EvGet u (Some (params_of 1)); EvGet u (Some (params_of 2));
                  EvGet u (Some (params_of 3))]).
Proof.
  intros Hlen Hserve Hfuel u.
  destruct fuel as [| [| [| fuel]]]; try lia.
  destruct (Hserve 1 h ltac:(lia)) as [hd1 Hup1].
  pose proof (safe_request_first_ok _ _ _ _ Hup1 eq_refl) as Hreq1.
  rewrite (walk_goes_on _ _ _ _ _ _ Hreq1 eq_refl)
    by (simpl; rewrite length_take, length_drop; lia).
  set (h1 := h ++ _).
  destruct (Hserve 2 h1 ltac:(lia)) as [hd2 Hup2].
  pose proof (safe_request_first_ok _ _ _ _ Hup2 eq_refl) as Hreq2.
  rewrite (walk_goes_on _ _ _ _ _ _ Hreq2 eq_refl)
    by (simpl; rewrite length_take, length_drop; lia).
  set (h2 := h1 ++ _).
  destruct (Hserve 3 h2 ltac:(lia)) as [hd3 Hup3].
  pose proof (safe_request_first_ok _ _ _ _ Hup3 eq_refl) as Hreq3.
  rewrite (walk_stops_on_short _ _ _ _ _ _ Hreq3 eq_refl).
  - subst h2 h1. rewrite <- !app_assoc. simpl. f_equal. f_equal.
    change (Z.to_nat ((1 - 1) * 100)) with 0%nat.
    change (Z.to_nat ((2 - 1) * 100)) with 100%nat.
    change (Z.to_nat ((3 - 1) * 100)) with 200%nat.
    rewrite app_assoc. now apply three_pages.
  - simpl. intros Hnil. apply (f_equal length) in Hnil.
    rewrite length_take, length_drop, Hlen in Hnil. discriminate Hnil.
  - simpl. rewrite length_take, length_drop, Hlen.
    change (Z.to_nat ((3 - 1) * 100)) with 200%nat. simpl. lia.
Qed.

(** Both commit walks are this loop, from page 1. *)
Lemma walk_commits_spec :
  (forall p, params_of p !! "page" = Some (PInt p)) ->
  page_walk_spec owner repo params_of
    (fun fuel => walk_commits owner repo params_of fuel 1 []).
Proof.
  intros Hparams. constructor.
  - reflexivity.
  - intros fuel h. now apply walk_commits_order.
  - apply walk_stops_on_status.
  - apply walk_stops_on_empty.
  - apply walk_stops_on_short.
  - apply walk_goes_on.
  - intros cs fuel h. apply walk_commits_250.
Qed.

End PageWalk.

(** C7.  [_collect_all_commits] and [_collect_commits_since] ask for the
    pages in increasing order from page 1, none skipped; they end, with all
    that was accumulated, on the first page whose response is not a 200, is
    empty, or holds fewer than 100 entries (which are added first); over 250
    commits served 100 a page they issue exactly three GETs, for pages 1, 2
    and 3, and return the 250 commits, for any fuel of at least 3. *)
Theorem commit_page_walks owner repo since_iso :
  page_walk_spec owner repo all_params
    (fun fuel => _collect_all_commits fuel owner repo)
  /\ page_walk_spec owner repo (since_params since_iso)
       (fun fuel => _collect_commits_since fuel owner repo since_iso).
Proof.
  split.
  - apply walk_commits_spec, all_params_page.
  - apply walk_commits_spec, since_params_page.
Qed.

(** The walk over closed issues stops at page 10 at the latest: from page 1,
    ten units of fuel are always enough. *)
Lemma walk_closed_issues_fuelled query fuel page results h :
  (Z.to_nat (11 - page) <= fuel)%nat -> page <= 10 ->
  well_fuelled (walk_closed_issues query fuel page results h).
Proof.
  revert page results h. induction fuel as [| fuel IH]; intros page results h
    Hfuel Hpage; [lia |].
  cbn [walk_closed_issues]. unfold bind at 1.
  destruct (safe_request_loop_trace SearchIssuesApi
              (Some (closed_params query page)) 5 None h) as (_ & _ & _ & Hf & _).
  unfold _safe_request, well_fuelled in *.
  destruct (safe_request_loop _ _ 5 None h) as [[resp | e |] h1];
    simpl in Hf |- *; try discriminate; [| now destruct Hf].
  destruct (negb _); [discriminate |]. cbn [Json] in *.
  destruct (items (json resp)) as [| it its]; [discriminate |].
  destruct (Z.ltb_spec (Z.of_nat (length (it :: its))) 100); [discriminate |].
  destruct (Z.leb_spec 10 page); [discriminate |].
  apply IH; lia.
Qed.

End Paginator.

(** The 250-commit repository, walked with just enough fuel. *)
Lemma commit_page_walks_witness :
  let env := Sample.env_of (Sample.serve Scenario.big) in
  let u := url_of (CommitsApi "o" "r") in
  @_collect_all_commits env 3 "o" "r" []
  = (Ok (Sample.commits Scenario.big),
     [] ++ [EvGet u (Some (all_params 1)); EvGet u (Some (all_params 2));
            EvGet u (Some (all_params 3))]).
Proof.
  intros env u.
  apply (pw_250 _ _ _ _ (proj1 (@commit_page_walks env "o" "r" ""))
           (Sample.commits Scenario.big) 3%nat []).
  - vm_compute. reflexivity.
  - intros page h Hpage.
    exists (Sample.link_header (Some (all_params page)) 250).
    assert (page = 1 \/ page = 2 \/ page = 3) as [-> | [-> | ->]] by lia;
      vm_compute; reflexivity.
  - lia.
Defined.

(** ** Records *)

Lemma dict_get_set k v d k' :
  dict_get (dict_set k v d) k' = if String.eqb k' k then Some v else dict_get d k'.
Proof.
  induction d as [| [k0 v0] d IH]; simpl.
  - reflexivity.
  - destruct (String.eqb_spec k k0) as [-> | Hk]; simpl.
    + now destruct (String.eqb k' k0).
    + rewrite IH. destruct (String.eqb_spec k' k0) as [-> | Hk'];
        [| reflexivity].
      now rewrite (proj2 (String.eqb_neq k0 k)) by congruence.
Qed.

(** In [a | b] a key of [b] holds the value [b] gives it (the last one, were
    the key repeated), and any other key keeps its value in [a]. *)
Lemma dict_get_union a b k :
  dict_get (dict_union a b) k =
    match dict_get (rev b) k with
    | Some v => Some v
    | None => dict_get a k
    end.
Proof.
  unfold dict_union. revert a. induction b as [| [k0 v0] b IH]; intros a; simpl.
  - reflexivity.
  - rewrite IH, dict_get_set. clear IH.
    induction (rev b) as [| [k1 v1] rb IHrb]; simpl.
    + now destruct (String.eqb k k0).
    + now destruct (String.eqb k k1).
Qed.

(** What the Emit step writes under each derived key. *)
Lemma emitted_field row repo_info created_at repo_age_days open_issues
    closed_issues total_issues issues_opened_last_6m avg total_commits
    latest_commit_date days_of_activity commits_last_6m unique_committers k v :
  let fields :=
    derived_fields repo_info created_at repo_age_days open_issues closed_issues
      total_issues issues_opened_last_6m avg total_commits latest_commit_date
      days_of_activity commits_last_6m unique_committers in
  dict_get fields k = Some v ->
  dict_get (dict_union row fields) k = Some v.
Proof.
  intros fields Hk. rewrite dict_get_union.
  assert (Hrev : dict_get (rev fields) k = dict_get fields k).
  { subst fields. unfold derived_fields. cbn [rev app dict_get].
    repeat match goal with
    | |- context [String.eqb k ?s] =>
        destruct (String.eqb_spec k s) as [-> | ?]; [reflexivity |]
    end.
    reflexivity. }
  now rewrite Hrev, Hk.
Qed.

(** ** Window aggregator *)

Section Aggregator.
Context {env : Env} {seed : HashSeed}.

Lemma set_place_In x y s : In y (set_place x s) <-> y = x \/ In y s.
Proof.
  induction s as [| z s IH]; simpl.
  - intuition.
  - destruct (str_hash x <? str_hash z); simpl; [intuition |].
    rewrite IH. intuition.
Qed.

Lemma set_add_In x y s : In y (set_add x s) <-> y = x \/ In y s.
Proof.
  unfold set_add. destruct (existsb (String.eqb x) s) eqn:Hmem.
  - apply existsb_exists in Hmem as (z & Hz & Heq).
    apply String.eqb_eq in Heq as <-. intuition congruence.
  - apply set_place_In.
Qed.

Lemma committers_loop_In all_commits s y :
  In y (committers_loop all_commits s) <->
  In y s \/ exists c, In c all_commits /\ y = committer_identity c.
Proof.
  unfold committers_loop. revert s.
  induction all_commits as [| c cs IH]; intros s; simpl.
  - split; [auto | intros [H | (c & [] & _)]; exact H].
  - rewrite IH, set_add_In. split.
    + intros [[-> | H] | (c' & Hc' & ->)]; eauto.
    + intros [H | (c' & [<- | Hc'] & ->)]; eauto.
Qed.

(** C4, as the code has it.  A commit whose committer timestamp is missing
    or is no ISO date leaves the 6-month commit count and the set of commit
    days as they were, and the loop goes on with the remaining commits.  The
    loop that builds the unique-committer set never looks at timestamps: the
    commit's identity is added to that set all the same. *)
Theorem unusable_timestamp_commits c rest six_months_ago n days committers :
  timestamp_unusable c ->
  window_loop six_months_ago (c :: rest) n days
    = window_loop six_months_ago rest n days
  /\ committers_loop (c :: rest) committers
     = committers_loop rest (set_add (committer_identity c) committers)
  /\ In (committer_identity c) (committers_loop (c :: rest) committers).
Proof.
  intros Hc. split; [| split].
  - cbn [window_loop]. destruct Hc as [-> | (date_str & -> & ->)]; reflexivity.
  - reflexivity.
  - apply (proj2 (committers_loop_In _ _ _)). right. exists c.
    split; [now left | reflexivity].
Qed.



End Aggregator.

(** C4 fails on the code: a commit without a committer date stays out of the
    6-month count but its author is in the unique-committer set, and the
    emitted record counts one committer. *)
Lemma undated_commit_counted_counterexample :
  let env := Sample.env_of (Sample.serve Scenario.quiet) in
  let six_months_ago :=
    {| wall := Sample.t0 - 180 * day_us; utcoffset := Some 0 |} in
  @timestamp_unusable env Scenario.alice_undated
  /\ @window_loop env Sample.seed_a six_months_ago [Scenario.alice_undated] 0 []
     = Ok (0, [])
  /\ @committers_loop Sample.seed_a [Scenario.alice_undated] [] = ["alice"]
  /\ match (@get_gh_data env Sample.seed_a 10 Scenario.the_rows []).1 with
     | Ok [record] =>
         dict_get record "commitsInLast6Months" = Some (VInt 0)
         /\ dict_get record "committersParticipation" = Some (VInt 1)
     | _ => False
     end.
Proof.
  intros env six_months_ago. split; [left; reflexivity |].
  repeat split; vm_compute; reflexivity.
Qed.

Lemma unusable_timestamp_commits_witness :
  let env := Sample.env_of (Sample.serve Scenario.misdated) in
  let six_months_ago :=
    {| wall := Sample.t0 - 180 * day_us; utcoffset := Some 0 |} in
  @window_loop env Sample.seed_a six_months_ago
     [Scenario.bob_misdated; Scenario.alice_undated] 0 []
  = @window_loop env Sample.seed_a six_months_ago [Scenario.alice_undated] 0 []
  /\ In "bob"
       (@committers_loop Sample.seed_a
          [Scenario.bob_misdated; Scenario.alice_undated] []).
Proof.
  intros env six_months_ago.
  assert (Hc : @timestamp_unusable env Scenario.bob_misdated).
  { right. exists "yesterday". split; vm_compute; reflexivity. }
  destruct (@unusable_timestamp_commits env Sample.seed_a Scenario.bob_misdated
              [Scenario.alice_undated] six_months_ago 0 [] [] Hc)
    as (Hwin & _ & Hin).
  split; [exact Hwin | exact Hin].
Defined.



(** ** Repository metrics assembler *)

Section Assembler.
Context {env : Env}.

(** What a record that was emitted is made of. *)
Lemma collect_repo_inv {seed : HashSeed} fuel six_months_ago six_months_iso
    row owner repo repo_info h record h' :
  collect_repo fuel six_months_ago six_months_iso row owner repo repo_info h
    = (Ok record, h') ->
  exists total_commits latest_commit_date commits_last_6m unique_committers
         total_issues open_issues closed_issues issues_opened_last_6m avg
         repo_age_days days_of_activity h1,
    repo_age_block (ri_created_at repo_info) latest_commit_date h1
      = (Ok (repo_age_days, days_of_activity), h')
    /\ record
       = dict_union row
           (derived_fields repo_info (ri_created_at repo_info) repo_age_days
              open_issues closed_issues total_issues issues_opened_last_6m avg
              total_commits latest_commit_date days_of_activity commits_last_6m
              unique_committers).
Proof.
  unfold collect_repo. intros H.
  apply bind_inv_ok in H as (total_commits & ? & _ & H).
  apply bind_inv_ok in H as (latest_commit_date & ? & _ & H).
  apply bind_inv_ok in H as (recent_commits & ? & _ & H).
  apply bind_inv_ok in H as ([commits_last_6m unique_commit_days] & ? & _ & H).
  apply bind_inv_ok in H as (all_commits & ? & _ & H).
  apply bind_inv_ok in H as (total_issues & ? & _ & H).
  apply bind_inv_ok in H as (open_issues & ? & _ & H).
  apply bind_inv_ok in H as (closed_issues & ? & _ & H).
  apply bind_inv_ok in H as (issues_opened_last_6m & ? & _ & H).
  apply bind_inv_ok in H as (closed_recent_items & ? & _ & H).
  apply bind_inv_ok in H as (close_deltas & ? & _ & H).
  apply bind_inv_ok in H as ([repo_age_days days_of_activity] & h2 & Hage & H).
  injection H as <- <-.
  repeat eexists. exact Hage.
Qed.

Lemma repo_age_block_cleared created_str created_dt latest_str offset h :
  created_str <> "" -> parse_date created_str = Some created_dt ->
  latest_str <> "" -> parse_date latest_str = None ->
  utcoffset created_dt = Some offset ->
  repo_age_block (Some created_str) (Some latest_str) h
  = (Ok (None, None), h ++ [EvClock]).
Proof.
  intros Hc Hpc Hl Hpl Hoff. unfold repo_age_block.
  rewrite (nonempty_Some _ Hc), Hpc, (nonempty_Some _ Hl), Hpl.
  unfold bind, datetime_now_utc, read_clock, lift, dt_sub, ret. simpl.
  now rewrite Hoff.
Qed.

Lemma repo_age_block_cleared_inv created_str created_dt latest_str h r h' :
  created_str <> "" -> parse_date created_str = Some created_dt ->
  latest_str <> "" -> parse_date latest_str = None ->
  repo_age_block (Some created_str) (Some latest_str) h = (Ok r, h') ->
  r = (None, None).
Proof.
  intros Hc Hpc Hl Hpl. unfold repo_age_block.
  rewrite (nonempty_Some _ Hc), Hpc, (nonempty_Some _ Hl), Hpl.
  unfold bind, datetime_now_utc, read_clock, lift, dt_sub, ret. simpl.
  destruct (utcoffset created_dt); intros [=]; congruence.
Qed.

(** C10.  When the creation timestamp parses and the latest-commit
    timestamp is present but is no ISO date, the [ValueError] of the second
    parse clears the age computed from the first: the block ends with no age
    and no activity span, and every record emitted for such a repository has
    a missing [repoAge].  Without a latest-commit timestamp the age computed
    from the creation timestamp stays. *)
Theorem unparsable_commit_date_clears_repo_age created_str created_dt latest_str :
  created_str <> "" -> parse_date created_str = Some created_dt ->
  latest_str <> "" -> parse_date latest_str = None ->
  (forall offset h, utcoffset created_dt = Some offset ->
     repo_age_block (Some created_str) (Some latest_str) h
     = (Ok (None, None), h ++ [EvClock])
     /\ repo_age_block (Some created_str) None h
        = (Ok (Some (td_days (clock h - 0 - (wall created_dt - offset))), None),
           h ++ [EvClock]))
  /\ (forall (seed : HashSeed) fuel six_months_ago six_months_iso row owner repo
         repo_info h record h',
       ri_created_at repo_info = Some created_str ->
       collect_repo fuel six_months_ago six_months_iso row owner repo repo_info h
         = (Ok record, h') ->
       dict_get record "dateOfLastCommit" = Some (VStr latest_str) ->
       dict_get record "repoAge" = Some VNone).
Proof.
  intros Hc Hpc Hl Hpl. split.
  - intros offset h Hoff. split.
    + now apply (repo_age_block_cleared _ created_dt _ offset).
    + unfold repo_age_block. rewrite (nonempty_Some _ Hc), Hpc.
      unfold bind, datetime_now_utc, read_clock, lift, dt_sub, ret. simpl.
      now rewrite Hoff.
  - intros seed fuel six_months_ago six_months_iso row owner repo repo_info
      h record h' Hcreated Hrun Hlast.
    apply collect_repo_inv in Hrun
      as (total_commits & latest_commit_date & commits_last_6m
          & unique_committers & total_issues & open_issues & closed_issues
          & issues_opened_last_6m & avg & repo_age_days & days_of_activity
          & h1 & Hage & ->).
    rewrite (emitted_field _ _ _ _ _ _ _ _ _ _ _ _ _ _ "dateOfLastCommit"
               (opt_str latest_commit_date) eq_refl) in Hlast.
    destruct latest_commit_date as [l |]; [| discriminate].
    injection Hlast as ->. rewrite Hcreated in Hage.
    apply (repo_age_block_cleared_inv _ created_dt) in Hage; try assumption.
    injection Hage as -> ->.
    now apply emitted_field.
Qed.

(** Counts that the Emit step always writes as integers. *)
Lemma defaulted_counts row repo_info created_at repo_age_days open_issues
    closed_issues total_issues issues_opened_last_6m avg total_commits
    latest_commit_date days_of_activity commits_last_6m unique_committers k :
  In k ["closedIssues"; "totalIssues"; "issuesOpenedLast6Months";
        "commitsInLast6Months"; "committersParticipation"] ->
  exists n,
    dict_get
      (dict_union row
         (derived_fields repo_info created_at repo_age_days open_issues
            closed_issues total_issues issues_opened_last_6m avg total_commits
            latest_commit_date days_of_activity commits_last_6m
            unique_committers)) k
    = Some (VInt n).
Proof.
  intros Hk. simpl in Hk.
  destruct Hk as [<- | [<- | [<- | [<- | [<- | []]]]]];
    try (eexists; apply emitted_field; reflexivity).
  destruct unique_committers; eexists; apply emitted_field; reflexivity.
Qed.

(** The rows that are passed over.  A row whose link is no string or does
    not match the pattern is passed over without a request, and a row whose
    repository-info request comes back with a status other than 200 is
    passed over after that one request: in both cases the loop goes on with
    the next row and with the list of records as it was.  The request has
    to come back for that: when each of its attempts fails, the run ends
    there. *)
Theorem unresolved_rows_are_skipped {seed : HashSeed} fuel six_months_ago
    six_months_iso row df repo_data h :
  ((forall github_url,
      dict_get row "Github_links" = Some (VStr github_url) ->
      pattern_search github_url = None) ->
   rows_loop fuel six_months_ago six_months_iso (row :: df) repo_data h
   = rows_loop fuel six_months_ago six_months_iso df repo_data h)
  /\ (forall github_url owner repo repo_resp h1,
       dict_get row "Github_links" = Some (VStr github_url) ->
       pattern_search github_url = Some (owner, repo) ->
       _safe_request (RepoApi owner repo) None h = (Ok repo_resp, h1) ->
       status_code repo_resp <> 200 ->
       rows_loop fuel six_months_ago six_months_iso (row :: df) repo_data h
       = rows_loop fuel six_months_ago six_months_iso df repo_data h1).
Proof.
  split.
  - intros Hno. cbn [rows_loop].
    destruct (dict_get row "Github_links") as [[| | | | github_url] |];
      try reflexivity.
    now rewrite (Hno github_url eq_refl).
  - intros github_url owner repo repo_resp h1 Hlink Hmatch Hreq Hstatus.
    cbn [rows_loop]. rewrite Hlink, Hmatch. unfold bind at 1. rewrite Hreq.
    now rewrite (proj2 (Z.eqb_neq _ _) Hstatus).
Qed.

End Assembler.

(** The repository created in 2020 whose only commit is dated "yesterday":
    its record has no age, next to the creation date and the commit date it
    was to be computed from. *)
Lemma unparsable_commit_date_clears_repo_age_witness :
  let env := Sample.env_of (Sample.serve Scenario.misdated) in
  let six_months_ago :=
    {| wall := Sample.t0 - 180 * day_us; utcoffset := Some 0 |} in
  match (@collect_repo env Sample.seed_a 10 six_months_ago
           (Sample.format_iso six_months_ago)
           (Scenario.row_of "https://github.com/o/r") "o" "r"
           Scenario.info_2020 []).1 with
  | Ok record =>
      dict_get record "createdAt" = Some (VStr "2020-01-01T00:00:00Z")
      /\ dict_get record "dateOfLastCommit" = Some (VStr "yesterday")
      /\ dict_get record "repoAge" = Some VNone
  | _ => False
  end.
Proof.
  intros env six_months_ago.
  destruct (@collect_repo env Sample.seed_a 10 six_months_ago
              (Sample.format_iso six_months_ago)
              (Scenario.row_of "https://github.com/o/r") "o" "r"
              Scenario.info_2020 []) as [[record | e |] h'] eqn:Hrun;
    [| vm_compute in Hrun; discriminate Hrun ..].
  pose proof Hrun as Hrecord. vm_compute in Hrecord.
  injection Hrecord as Hrecord _.
  assert (Hlast : dict_get record "dateOfLastCommit" = Some (VStr "yesterday"))
    by (rewrite <- Hrecord; vm_compute; reflexivity).
  simpl. split; [rewrite <- Hrecord; vm_compute; reflexivity |].
  split; [exact Hlast |].
  refine (proj2 (@unparsable_commit_date_clears_repo_age env
                   "2020-01-01T00:00:00Z"
                   {| wall := 1577836800000000; utcoffset := Some 0 |}
                   "yesterday" _ _ _ _)
            Sample.seed_a _ _ _ _ _ _ _ _ _ _ _ Hrun Hlast);
    try discriminate; vm_compute; reflexivity.
Defined.

(** A link to another site is passed over without a request; a repository
    that answers 403 is passed over after the executor gave up on it. *)
Lemma unresolved_rows_are_skipped_witness :
  let six_months_ago :=
    {| wall := Sample.t0 - 180 * day_us; utcoffset := Some 0 |} in
  let env := Sample.env_of (Sample.serve Scenario.forbidden) in
  let u := url_of Scenario.the_repo in
  @rows_loop env Sample.seed_a 10 six_months_ago "" 
     (Scenario.row_of "https://gitlab.com/o/r" :: []) [] []
  = @rows_loop env Sample.seed_a 10 six_months_ago "" [] [] []
  /\ @rows_loop env Sample.seed_a 10 six_months_ago ""
       (Scenario.row_of "https://github.com/o/r" :: []) [] []
     = @rows_loop env Sample.seed_a 10 six_months_ago "" [] []
         [EvGet u None; EvGet u None; EvGet u None; EvGet u None; EvGet u None].
Proof.
  intros six_months_ago env u.
  split.
  - apply (proj1 (@unresolved_rows_are_skipped env Sample.seed_a 10
                    six_months_ago "" (Scenario.row_of "https://gitlab.com/o/r")
                    [] [] [])).
    intros github_url [= <-]. vm_compute. reflexivity.
  - apply (proj2 (@unresolved_rows_are_skipped env Sample.seed_a 10
                    six_months_ago "" (Scenario.row_of "https://github.com/o/r")
                    [] [] [])
             "https://github.com/o/r" "o" "r"
             {| status_code := 403; headers := ∅; json := Sample.no_info |});
      try (vm_compute; reflexivity).
    vm_compute. discriminate.
Defined.

(** C8, at the input where the code departs from it.  A row whose
    repository-info request fails on each of the five attempts is not
    passed over: the [UnboundLocalError] of the executor ends the loop over
    the rows there, whatever rows follow and whatever records were
    collected before, and so it ends the run. *)
Theorem unreachable_repository_halts_rows {seed : HashSeed} fuel six_months_ago
    six_months_iso df repo_data h :
  let env := Sample.env_of Sample.down in
  let u := url_of Scenario.the_repo in
  let gave_up :=
    [EvGet u None; EvSleep (3 # 2); EvGet u None; EvSleep (3 # 2);
     EvGet u None; EvSleep (3 # 2); EvGet u None; EvSleep (3 # 2);
     EvGet u None; EvSleep (3 # 2)] in
  @rows_loop env seed fuel six_months_ago six_months_iso
    (Scenario.row_of "https://github.com/o/r" :: df) repo_data h
  = (Raise UnboundLocalError, h ++ gave_up)
  /\ @get_gh_data env seed fuel (Scenario.row_of "https://github.com/o/r" :: df) h
     = (Raise UnboundLocalError, (h ++ [EvClock]) ++ gave_up).
Proof.
  intros env u gave_up.
  assert (Hrows : forall six_months_ago six_months_iso repo_data h,
    @rows_loop env seed fuel six_months_ago six_months_iso
      (Scenario.row_of "https://github.com/o/r" :: df) repo_data h
    = (Raise UnboundLocalError, h ++ gave_up)).
  { intros start iso records h0. cbn [rows_loop].
    change (dict_get (Scenario.row_of "https://github.com/o/r") "Github_links")
      with (Some (VStr "https://github.com/o/r")).
    replace (pattern_search "https://github.com/o/r") with (Some ("o", "r"))
      by (vm_compute; reflexivity).
    unfold bind at 1, _safe_request.
    repeat (rewrite safe_request_loop_step; cbv zeta; simpl upstream;
            cbv beta iota).
    simpl. unfold raise. now rewrite <- !app_assoc. }
  split; [apply Hrows |].
  unfold get_gh_data, datetime_now_utc, bind, read_clock, ret.
  cbv beta iota. apply Hrows.
Qed.

(** C3, at the input where the code departs from it.  For an empty
    repository the commit-count probe is answered 409; the record is emitted
    all the same, and its [commits] field is a missing value, while the
    counts next to it are integers. *)
Theorem commit_count_missing_after_failed_probe :
  let env := Sample.env_of (Sample.serve Scenario.empty_repo) in
  (@_get_total_commits_count env "o" "r" []).1 = Ok None
  /\ match (@get_gh_data env Sample.seed_a 10 Scenario.the_rows []).1 with
     | Ok [record] =>
         dict_get record "commits" = Some VNone
         /\ dict_get record "closedIssues" = Some (VInt 0)
         /\ dict_get record "commitsInLast6Months" = Some (VInt 0)
         /\ dict_get record "committersParticipation" = Some (VInt 0)
     | _ => False
     end.
Proof. intros env. vm_compute. repeat split; reflexivity. Qed.

(** ** Independence from the iteration order of sets *)

Section SetOrder.
Context {env : Env} (seed1 seed2 : HashSeed).

Lemma set_place_perm {seed : HashSeed} x s : set_place x s ≡ₚ x :: s.
Proof.
  induction s as [| y s IH]; simpl; [reflexivity |].
  destruct (str_hash x <? str_hash y); [reflexivity |].
  rewrite IH. apply Permutation_swap.
Qed.

Lemma existsb_perm {A} (f : A -> bool) s1 s2 :
  s1 ≡ₚ s2 -> existsb f s1 = existsb f s2.
Proof.
  induction 1 as [| x l l' _ IH | x y l | l l' l'' _ IH1 _ IH2]; simpl.
  - reflexivity.
  - now rewrite IH.
  - now destruct (f x), (f y).
  - congruence.
Qed.

Lemma set_add_perm x s1 s2 :
  s1 ≡ₚ s2 -> @set_add seed1 x s1 ≡ₚ @set_add seed2 x s2.
Proof.
  intros Hs. unfold set_add. rewrite (existsb_perm _ _ _ Hs).
  destruct (existsb (String.eqb x) s2); [exact Hs |].
  now rewrite !set_place_perm, Hs.
Qed.

(** Whatever the seeds, the unique-committer sets hold the same elements. *)
Lemma committers_loop_perm all_commits s1 s2 :
  s1 ≡ₚ s2 ->
  @committers_loop seed1 all_commits s1 ≡ₚ @committers_loop seed2 all_commits s2.
Proof.
  unfold committers_loop. revert s1 s2.
  induction all_commits as [| c cs IH]; intros s1 s2 Hs; simpl.
  - exact Hs.
  - apply IH, set_add_perm, Hs.
Qed.

(** The window loop counts the same commits, whatever the seeds and the
    sets of days it starts from. *)
Lemma window_loop_count six_months_ago recent_commits n days1 days2 :
  outcome_map fst (@window_loop env seed1 six_months_ago recent_commits n days1)
  = outcome_map fst (@window_loop env seed2 six_months_ago recent_commits n days2).
Proof.
  revert n days1 days2.
  induction recent_commits as [| c rest IH]; intros n days1 days2;
    cbn [window_loop]; [reflexivity |].
  destruct (nonempty (commit_committer_date c)) as [date_str |]; [| apply IH].
  destruct (parse_date date_str) as [dt |]; [| apply IH].
  destruct (dt_ge dt six_months_ago) as [[|] | e |]; try reflexivity; apply IH.
Qed.

(** The record depends on the unique-committer set through its size only. *)
Lemma derived_fields_size repo_info created_at repo_age_days open_issues
    closed_issues total_issues issues_opened_last_6m avg total_commits
    latest_commit_date days_of_activity commits_last_6m
    (committers1 committers2 : PySet) :
  length committers1 = length committers2 ->
  derived_fields repo_info created_at repo_age_days open_issues closed_issues
    total_issues issues_opened_last_6m avg total_commits latest_commit_date
    days_of_activity commits_last_6m committers1
  = derived_fields repo_info created_at repo_age_days open_issues closed_issues
      total_issues issues_opened_last_6m avg total_commits latest_commit_date
      days_of_activity commits_last_6m committers2.
Proof.
  intros Hlen. unfold derived_fields, set_len.
  destruct committers1, committers2; try discriminate Hlen; [reflexivity |].
  now rewrite Hlen.
Qed.

Lemma collect_repo_seed fuel six_months_ago six_months_iso row owner repo
    repo_info h :
  @collect_repo env seed1 fuel six_months_ago six_months_iso row owner repo
    repo_info h
  = @collect_repo env seed2 fuel six_months_ago six_months_iso row owner repo
      repo_info h.
Proof.
  unfold collect_repo.
  apply bind_ext; intros total_commits h1.
  apply bind_ext; intros latest_commit_date h2.
  apply bind_ext; intros recent_commits h3.
  pose proof (window_loop_count six_months_ago recent_commits 0 [] []) as Hwin.
  rewrite !bind_lift.
  destruct (@window_loop env seed1 six_months_ago recent_commits 0 [])
    as [[n1 d1] | e1 |],
    (@window_loop env seed2 six_months_ago recent_commits 0 [])
    as [[n2 d2] | e2 |]; simpl in Hwin; try discriminate Hwin;
    try (injection Hwin as ->; reflexivity); try reflexivity.
  injection Hwin as ->. cbv beta iota zeta.
  apply bind_ext; intros all_commits h4.
  do 7 (apply bind_ext; intros ? ?).
  match goal with
  | |- context [let '(_, _) := ?ages in _] =>
      destruct ages as [repo_age_days days_of_activity]
  end.
  unfold ret. do 3 f_equal.
  apply derived_fields_size, Permutation_length, committers_loop_perm.
  reflexivity.
Qed.

Lemma rows_loop_seed fuel six_months_ago six_months_iso df repo_data h :
  @rows_loop env seed1 fuel six_months_ago six_months_iso df repo_data h
  = @rows_loop env seed2 fuel six_months_ago six_months_iso df repo_data h.
Proof.
  revert repo_data h. induction df as [| row df IH]; intros repo_data h;
    cbn [rows_loop]; [reflexivity |].
  destruct (dict_get row "Github_links") as [[| | | | github_url] |];
    try apply IH.
  destruct (pattern_search github_url) as [[owner repo] |]; [| apply IH].
  apply bind_ext; intros repo_resp h1.
  destruct (negb _); [apply IH |].
  unfold bind. rewrite collect_repo_seed.
  destruct (@collect_repo env seed2 _ _ _ _ _ _ _ h1) as [[record | e |] h2];
    [apply IH | reflexivity ..].
Qed.

(** C9.  The records [get_gh_data] produces are a function of the input
    rows, the upstream responses and the clock alone: two runs that differ in
    the hash seed, hence in the iteration order of every set built on the
    way, produce the same outcome and the same history.  The set of commit
    days never reaches the record, and the unique-committer set reaches it
    through its size only. *)
Theorem output_independent_of_set_order fuel df h :
  @get_gh_data env seed1 fuel df h = @get_gh_data env seed2 fuel df h
  /\ (forall all_commits,
       length (@committers_loop seed1 all_commits [])
       = length (@committers_loop seed2 all_commits []))
  /\ (forall six_months_ago recent_commits,
       outcome_map fst (@window_loop env seed1 six_months_ago recent_commits 0 [])
       = outcome_map fst
           (@window_loop env seed2 six_months_ago recent_commits 0 [])).
Proof.
  split; [| split].
  - unfold get_gh_data. apply bind_ext; intros now h1. apply rows_loop_seed.
  - intros all_commits. now apply Permutation_length, committers_loop_perm.
  - intros six_months_ago recent_commits. apply window_loop_count.
Qed.

End SetOrder.

(** Two seeds that store the same committers in opposite orders. *)
Example set_order_differs :
  @committers_loop Sample.seed_a [Scenario.bob_misdated; Scenario.alice_undated] []
    = ["bob"; "alice"]
  /\ @committers_loop Sample.seed_b [Scenario.bob_misdated; Scenario.alice_undated] []
     = ["alice"; "bob"].
Proof. split; vm_compute; reflexivity. Qed.

(** * Further properties of the collector *)

(** ** The executor's budget and what it returns *)

Section ExecutorBudget.
Context {env : Env}.

Lemma get_count_app evs1 evs2 :
  get_count (evs1 ++ evs2) = (get_count evs1 + get_count evs2)%nat.
Proof. unfold get_count. now rewrite filter_app, length_app. Qed.

Lemma get_count_quiet evs :
  Forall (fun ev => forall u p, ev <> EvGet u p) evs -> get_count evs = 0%nat.
Proof.
  induction 1 as [| ev evs Hev _ IH]; [reflexivity |].
  destruct ev as [u p | |]; [now destruct (Hev u p) | exact IH ..].
Qed.

(** The loop with [n] attempts left issues at most [n] GETs, and one at
    least when it has an attempt left. *)
Lemma safe_request_loop_count e params n resp h :
  exists evs,
    (safe_request_loop e params n resp h).2 = h ++ evs
    /\ (get_count evs <= n)%nat
    /\ (n <> O -> 1 <= get_count evs)%nat.
Proof.
  revert resp h. induction n as [| n IH]; intros resp h.
  - exists []. rewrite app_nil_r. unfold get_count. simpl.
    destruct resp; simpl; repeat split; lia.
  - rewrite safe_request_loop_step. cbv zeta.
    set (get := EvGet (url_of e) params).
    assert (Hrec : forall resp' evs0, get_count evs0 = 0%nat ->
      exists evs,
        (safe_request_loop e params n resp' ((h ++ [get]) ++ evs0)).2 = h ++ evs
        /\ (get_count evs <= S n)%nat /\ (S n <> O -> 1 <= get_count evs)%nat).
    { intros resp' evs0 H0.
      destruct (IH resp' ((h ++ [get]) ++ evs0)) as (evs & Hh & Hle & _).
      exists ([get] ++ evs0 ++ evs).
      split; [rewrite Hh; now rewrite <- !app_assoc |].
      rewrite !get_count_app, H0. unfold get_count at 1 3. simpl. lia. }
    destruct (upstream e h params) as [r | x]; [| now apply (Hrec _ [EvSleep _])].
    destruct (status_code r =? 403).
    + destruct (respect_rate_limit_trace r (h ++ [get])) as (evs0 & Hh & Hq & Hf).
      unfold bind. unfold well_fuelled in Hf.
      destruct (_respect_rate_limit r (h ++ [get])) as [[[] | ex |] h2];
        simpl in Hh, Hf; subst h2.
      * apply Hrec, get_count_quiet, Hq.
      * exists ([get] ++ evs0). rewrite <- app_assoc. simpl.
        split; [reflexivity |].
        change (get :: evs0) with ([get] ++ evs0).
        rewrite get_count_app, (get_count_quiet _ Hq).
        unfold get_count. simpl. lia.
      * now destruct Hf.
    + destruct ((status_code r =? 200) || (status_code r =? 201)).
      * exists [get]. unfold get_count. simpl. repeat split; lia.
      * now apply (Hrec _ [EvSleep _]).
Qed.

(** One call of [_safe_request] costs between one and five GETs. *)
Lemma safe_request_get_count e params h :
  exists evs,
    (_safe_request e params h).2 = h ++ evs /\ (1 <= get_count evs <= 5)%nat.
Proof.
  unfold _safe_request.
  destruct (safe_request_loop_count e params 5 None h) as (evs & Hh & Hle & Hge).
  exists evs. repeat split; try assumption. apply Hge. discriminate.
Qed.

(** X1.  Whatever the server does, one call of [_safe_request] ends (it
    needs no fuel), only ever appends to the history, and issues between one
    and five GETs, all of them the request it was given. *)
Theorem safe_request_budget e params h :
  exists evs,
    (_safe_request e params h).2 = h ++ evs
    /\ gets_only e params evs
    /\ (1 <= get_count evs <= 5)%nat
    /\ well_fuelled (_safe_request e params h).
Proof.
  unfold _safe_request.
  destruct (safe_request_loop_trace e params 5 None h) as (evs & Hh & Hg & Hf & _).
  destruct (safe_request_loop_count e params 5 None h) as (evs' & Hh' & Hle & Hge).
  rewrite Hh in Hh'. apply app_inv_head in Hh' as <-.
  exists evs. repeat split; try assumption. apply Hge. discriminate.
Qed.

(** What the loop returns was bound to [resp] on entry or served to one of
    its GETs; a response that is neither a 200 nor a 201 is only returned
    once the attempts are used up. *)
Lemma safe_request_loop_returns e params n resp h r h' :
  safe_request_loop e params n resp h = (Ok r, h') ->
  (resp = Some r \/ exists h0, upstream e h0 params = Responded r)
  /\ (status_code r = 200 \/ status_code r = 201
      \/ exists evs, h' = h ++ evs /\ get_count evs = n).
Proof.
  revert resp h. induction n as [| n IH]; intros resp h.
  - simpl. destruct resp as [r0 |]; [| discriminate]. intros [= -> <-].
    split; [now left |]. right. right. exists []. now rewrite app_nil_r.
  - rewrite safe_request_loop_step. cbv zeta.
    set (get := EvGet (url_of e) params).
    assert (Hrec : forall resp' evs0,
      get_count evs0 = 0%nat ->
      (resp' = Some r -> resp = Some r
                         \/ exists h0, upstream e h0 params = Responded r) ->
      safe_request_loop e params n resp' ((h ++ [get]) ++ evs0) = (Ok r, h') ->
      (resp = Some r \/ exists h0, upstream e h0 params = Responded r)
      /\ (status_code r = 200 \/ status_code r = 201
          \/ exists evs, h' = h ++ evs /\ get_count evs = S n)).
    { intros resp' evs0 H0 Hresp Hrun.
      apply IH in Hrun as [Hfrom Hstatus]. split.
      - destruct Hfrom as [Hr | Hr]; [now apply Hresp | now right].
      - destruct Hstatus as [Hs | [Hs | (evs & -> & Hn)]]; auto.
        right. right. exists ([get] ++ evs0 ++ evs).
        split; [now rewrite <- !app_assoc |].
        rewrite !get_count_app, H0, Hn. reflexivity. }
    destruct (upstream e h params) as [r0 | x] eqn:Hup.
    + destruct (status_code r0 =? 403).
      * destruct (respect_rate_limit_trace r0 (h ++ [get])) as (evs0 & Hh & Hq & _).
        unfold bind.
        destruct (_respect_rate_limit r0 (h ++ [get])) as [[[] | ex |] h2];
          simpl in Hh; subst h2; try discriminate.
        apply Hrec; [now apply get_count_quiet |].
        intros [= ->]. right. now exists h.
      * destruct ((status_code r0 =? 200) || (status_code r0 =? 201)) eqn:Hs.
        -- intros [= -> <-]. split; [right; now exists h |].
           apply orb_true_iff in Hs as [Hs | Hs]; apply Z.eqb_eq in Hs; auto.
        -- apply (Hrec _ [EvSleep _]); [reflexivity |].
           intros [= ->]. right. now exists h.
    + apply (Hrec _ [EvSleep _]); [reflexivity | now left].
Qed.

(** X2.  A response that [_safe_request] returns was served by the server
    to one of its GETs, and it is a 200 or a 201 unless all five attempts
    were spent. *)
Theorem safe_request_returns_served e params h r h' :
  _safe_request e params h = (Ok r, h') ->
  (exists h0, upstream e h0 params = Responded r)
  /\ (status_code r = 200 \/ status_code r = 201
      \/ exists evs, h' = h ++ evs /\ get_count evs = 5%nat).
Proof.
  intros Hrun. apply safe_request_loop_returns in Hrun as [[Hr | Hr] Hs];
    [discriminate Hr | now split].
Qed.

(** X3.  A rate-limit response whose reset header is not a number makes the
    executor raise the [ValueError] of [int(reset)]: it is no
    [RequestException], so no retry follows, and nothing was slept. *)
Theorem malformed_reset_header_raises e params n resp h r reset_str :
  upstream e h params = Responded r ->
  status_code r = 403 ->
  rate_limited r reset_str ->
  py_int reset_str = None ->
  safe_request_loop e params (S n) resp h
  = (Raise ValueError, h ++ [EvGet (url_of e) params]).
Proof.
  intros Hup Hs (Hrem & Hreset & Hne) Hint.
  rewrite safe_request_loop_step, Hup. cbv zeta. rewrite Hs. simpl.
  unfold bind, _respect_rate_limit. rewrite Hs. simpl.
  rewrite bool_decide_eq_true_2 by assumption.
  now rewrite Hreset, (nonempty_Some _ Hne), Hint.
Qed.

(** X4.  Against a server that keeps answering with a status that is none of
    403, 200 and 201, the executor makes its five attempts, sleeps 1.5 s
    after each of them, the last one included, and returns the response to
    the fifth. *)
Theorem persistent_failure_returns_fifth_response e params h :
  (forall h0, exists r,
      upstream e h0 params = Responded r /\ plain_failure (status_code r)) ->
  let get := EvGet (url_of e) params in
  let nap := EvSleep (3 # 2) in
  exists r,
    upstream e (h ++ [get; nap; get; nap; get; nap; get; nap]) params
      = Responded r
    /\ _safe_request e params h
       = (Ok r, h ++ [get; nap; get; nap; get; nap; get; nap; get; nap]).
Proof.
  intros Hfail get nap.
  assert (Hstep : forall n resp h0,
    exists r, upstream e h0 params = Responded r
      /\ safe_request_loop e params (S n) resp h0
         = safe_request_loop e params n (Some r) ((h0 ++ [get]) ++ [nap])).
  { intros n resp h0. destruct (Hfail h0) as (r & Hup & H403 & H200 & H201).
    exists r. split; [exact Hup |].
    rewrite safe_request_loop_step, Hup. cbv zeta.
    now rewrite (proj2 (Z.eqb_neq _ _) H403), (proj2 (Z.eqb_neq _ _) H200),
      (proj2 (Z.eqb_neq _ _) H201). }
  unfold _safe_request.
  destruct (Hstep 4%nat None h) as (r1 & _ & ->).
  destruct (Hstep 3%nat (Some r1) ((h ++ [get]) ++ [nap])) as (r2 & _ & ->).
  destruct (Hstep 2%nat (Some r2) ((((h ++ [get]) ++ [nap]) ++ [get]) ++ [nap]))
    as (r3 & _ & ->).
  destruct (Hstep 1%nat (Some r3)
              ((((((h ++ [get]) ++ [nap]) ++ [get]) ++ [nap]) ++ [get]) ++ [nap]))
    as (r4 & _ & ->).
  destruct (Hstep 0%nat (Some r4)
              ((((((((h ++ [get]) ++ [nap]) ++ [get]) ++ [nap]) ++ [get]) ++ [nap])
                 ++ [get]) ++ [nap]))
    as (r5 & Hup5 & ->).
  exists r5. rewrite <- !app_assoc in *. simpl in *. split; [exact Hup5 |].
  reflexivity.
Qed.

End ExecutorBudget.

(** ** Probing and walking pages *)

Section PaginatorMore.
Context {env : Env}.

Lemma last_cons_default {A} (qs : list A) q d :
  List.last (q :: qs) d = List.last qs q.
Proof.
  revert q d. induction qs as [| q' qs IH]; intros q d; [reflexivity |].
  change (List.last (q :: q' :: qs) d) with (List.last (q' :: qs) d).
  now rewrite !IH.
Qed.

Lemma last_link_fold parts init :
  fold_left
    (fun last_page part =>
       if Str.contains rel_last part then last_page_of_part part else last_page)
    parts init
  = match List.filter (Str.contains rel_last) parts with
    | [] => init
    | p :: ps => last_page_of_part (List.last ps p)
    end.
Proof.
  revert init. induction parts as [| part parts IH]; intros init; simpl;
    [reflexivity |].
  rewrite IH. destruct (Str.contains rel_last part); [| reflexivity].
  destruct (List.filter _ parts) as [| q qs]; [reflexivity |].
  now rewrite (last_cons_default qs q part).
Qed.

(** X5.  What the commit-count probe makes of the response the executor
    hands it: nothing when it is not a 200; the length of the page when the
    200 has no (or an empty) [Link] header; otherwise the page number read
    off the last comma-separated part of the header that holds [rel="last"],
    and nothing, not the length of the page, when no part holds it. *)
Theorem total_commits_count_cases owner repo h resp h1 :
  _safe_request (CommitsApi owner repo) per_page_1 h = (Ok resp, h1) ->
  (status_code resp <> 200 ->
     _get_total_commits_count owner repo h = (Ok None, h1))
  /\ (status_code resp = 200 -> nonempty (headers resp !! "Link") = None ->
      _get_total_commits_count owner repo h
      = (Ok (Some (Z.of_nat (length (json resp)))), h1))
  /\ (forall link,
       status_code resp = 200 -> nonempty (headers resp !! "Link") = Some link ->
       _get_total_commits_count owner repo h
       = (Ok match List.filter (Str.contains rel_last) (Str.split "," link) with
             | [] => None
             | p :: ps => last_page_of_part (List.last ps p)
             end, h1)).
Proof.
  intros Hreq. unfold _get_total_commits_count, bind. rewrite Hreq.
  split; [| split].
  - intros Hs. now rewrite (proj2 (Z.eqb_neq _ _) Hs).
  - intros Hs Hlink. rewrite Hs, Hlink. reflexivity.
  - intros link Hs Hlink. rewrite Hs, Hlink. cbn [Z.eqb Pos.eqb negb].
    unfold ret. now rewrite last_link_fold.
Qed.

Lemma take_take_drop_100 {A} (cs : list A) k :
  take (100 * k) cs ++ take 100 (drop (100 * k) cs) = take (100 * S k) cs.
Proof.
  rewrite take_take_drop. f_equal. lia.
Qed.

Lemma walk_commits_all owner repo params_of cs :
  serves_all_pages owner repo params_of cs ->
  forall fuel k h,
    (100 * k <= length cs)%nat ->
    ((length cs - 100 * k) / 100 + 1 <= fuel)%nat ->
    walk_commits owner repo params_of fuel (Z.of_nat (S k)) (take (100 * k) cs) h
    = (Ok cs,
       h ++ page_gets (url_of (CommitsApi owner repo)) params_of (Z.of_nat (S k))
              ((length cs - 100 * k) / 100 + 1)).
Proof.
  intros Hserve. induction fuel as [| fuel IH]; intros k h Hk Hfuel; [lia |].
  destruct (Hserve (Z.of_nat (S k)) h ltac:(lia)) as [hdrs Hup].
  replace (Z.to_nat ((Z.of_nat (S k) - 1) * 100)) with (100 * k)%nat in Hup by lia.
  pose proof (safe_request_first_ok _ _ _ _ Hup eq_refl) as Hreq.
  set (batch := take 100 (drop (100 * k) cs)) in *.
  assert (Hlen : length batch = Nat.min 100 (length cs - 100 * k))
    by (unfold batch; now rewrite length_take, length_drop).
  destruct (Nat.lt_ge_cases (length cs - 100 * k) 100) as [Hshort | Hfull].
  - replace ((length cs - 100 * k) / 100)%nat with 0%nat
      by (symmetry; now apply Nat.div_small).
    cbn [Nat.add page_gets].
    destruct (Nat.eq_dec (length cs) (100 * k)%nat) as [Hend | Hmore].
    + rewrite (walk_stops_on_empty _ _ _ _ _ _ _ _ _ Hreq eq_refl).
      * now rewrite take_ge by lia.
      * simpl. apply length_zero_iff_nil. fold batch. lia.
    + rewrite (walk_stops_on_short _ _ _ _ _ _ _ _ _ Hreq eq_refl).
      * simpl. fold batch. unfold batch.
        rewrite (take_ge (drop _ _)) by (rewrite length_drop; lia).
        now rewrite take_drop.
      * simpl. fold batch. intros Hnil. apply (f_equal length) in Hnil.
        simpl in Hnil. lia.
      * simpl. fold batch. lia.
  - rewrite (walk_goes_on _ _ _ _ _ _ _ _ _ Hreq eq_refl)
      by (simpl; fold batch; lia).
    simpl json. fold batch. unfold batch. rewrite take_take_drop_100.
    replace (Z.of_nat (S k) + 1) with (Z.of_nat (S (S k))) by lia.
    assert (Hdiv : ((length cs - 100 * k) / 100
                    = S ((length cs - 100 * S k) / 100))%nat).
    { replace (length cs - 100 * k)%nat
        with (1 * 100 + (length cs - 100 * S k))%nat by lia.
      rewrite Nat.div_add_l by discriminate. reflexivity. }
    rewrite IH by lia. rewrite Hdiv. cbn [Nat.add page_gets].
    rewrite <- app_assoc. simpl.
    now replace (Z.of_nat (S k) + 1) with (Z.of_nat (S (S k))) by lia.
Qed.

(** X6.  Over a listing of any length served 100 entries a page, both
    commit walks return the whole listing, in order, with one GET a page and
    one page more than the listing has full pages: a listing of a multiple
    of 100 entries costs a last GET that brings back an empty page.  Fuel for
    that many pages is enough. *)
Theorem commit_walk_returns_whole_listing owner repo since_iso cs fuel h :
  let pages := (length cs / 100 + 1)%nat in
  let u := url_of (CommitsApi owner repo) in
  (pages <= fuel)%nat ->
  (serves_all_pages owner repo all_params cs ->
   _collect_all_commits fuel owner repo h
   = (Ok cs, h ++ page_gets u all_params 1 pages))
  /\ (serves_all_pages owner repo (since_params since_iso) cs ->
      _collect_commits_since fuel owner repo since_iso h
      = (Ok cs, h ++ page_gets u (since_params since_iso) 1 pages)).
Proof.
  intros pages u Hfuel. subst pages.
  split; intros Hserve.
  - pose proof (walk_commits_all _ _ _ _ Hserve fuel 0%nat h) as Hwalk.
    rewrite Nat.mul_0_r, Nat.sub_0_r in Hwalk. apply Hwalk; lia.
  - pose proof (walk_commits_all _ _ _ _ Hserve fuel 0%nat h) as Hwalk.
    rewrite Nat.mul_0_r, Nat.sub_0_r in Hwalk. apply Hwalk; lia.
Qed.

Lemma closed_params_page query p : closed_params query p !! "page" = Some (PInt p).
Proof. unfold closed_params. now simplify_map_eq. Qed.

Lemma walk_closed_issues_pages query fuel page results h :
  page <= 10 ->
  exists evs,
    (walk_closed_issues query fuel page results h).2 = h ++ evs
    /\ walk_order page (requested_pages evs)
    /\ Forall (fun p => p <= 10) (requested_pages evs)
    /\ (Z.of_nat (get_count evs) <= 5 * (11 - page)).
Proof.
  revert page results h. induction fuel as [| fuel IH]; intros page results h Hpage.
  - exists []. rewrite app_nil_r. unfold get_count. simpl.
    repeat split; [constructor | lia].
  - cbn [walk_closed_issues]. unfold bind at 1.
    destruct (safe_request_pages SearchIssuesApi (closed_params query page) page h
                (closed_params_page query page)) as (evs & pages & Hh & Hp & Hall).
    destruct (safe_request_get_count SearchIssuesApi
                (Some (closed_params query page)) h)
      as (evs' & Hh' & Hcount).
    rewrite Hh in Hh'. apply app_inv_head in Hh' as <-.
    assert (Hblock : walk_order page (requested_pages evs)
                     /\ Forall (fun p => p <= 10) (requested_pages evs)).
    { rewrite Hp. split.
      - rewrite <- (app_nil_r pages). now apply walk_order_block.
      - constructor; [exact Hpage |].
        eapply Forall_impl; [exact Hall |]. now intros p <-. }
    destruct Hblock as [Horder Hbound].
    assert (Hstop : exists evs0,
      h ++ evs = h ++ evs0 /\ walk_order page (requested_pages evs0)
      /\ Forall (fun p => p <= 10) (requested_pages evs0)
      /\ Z.of_nat (get_count evs0) <= 5 * (11 - page)).
    { exists evs. repeat split; try assumption. lia. }
    destruct (_safe_request _ _ h) as [[resp | e |] h1]; simpl in Hh; subst h1;
      try exact Hstop.
    destruct (negb _); [exact Hstop |]. cbn [Json] in *.
    destruct (items (json resp)) as [| it its]; [exact Hstop |].
    destruct (Z.of_nat (length (it :: its)) <? 100); [exact Hstop |].
    destruct (Z.leb_spec 10 page); [exact Hstop |]. cbn [orb].
    destruct (IH (page + 1) (results ++ it :: its) (h ++ evs) ltac:(lia))
      as (evs2 & -> & Ho2 & Hb2 & Hc2).
    exists (evs ++ evs2). rewrite <- app_assoc. split; [reflexivity |].
    rewrite requested_pages_app, get_count_app, Hp. repeat split.
    + now apply walk_order_block.
    + rewrite <- Hp. now apply Forall_app_2.
    + lia.
Qed.

(** X7.  The walk over closed issues asks for pages 1, 2, ... in order and
    never for a page beyond the tenth, so it issues at most 50 GETs; ten
    units of fuel are always enough for it to end. *)
Theorem closed_issue_walk_is_bounded fuel owner repo closed_since_iso h :
  (exists evs,
     (_fetch_closed_issues_for_average fuel owner repo closed_since_iso h).2
       = h ++ evs
     /\ walk_order 1 (requested_pages evs)
     /\ Forall (fun p => p <= 10) (requested_pages evs)
     /\ (get_count evs <= 50)%nat)
  /\ ((10 <= fuel)%nat ->
      well_fuelled
        (_fetch_closed_issues_for_average fuel owner repo closed_since_iso h)).
Proof.
  unfold _fetch_closed_issues_for_average. split.
  - destruct (walk_closed_issues_pages
                ("repo:" +:+ owner +:+ "/" +:+ repo
                 +:+ " type:issue is:closed closed:>="
                 +:+ List.hd "" (Str.split "T" closed_since_iso))
                fuel 1 [] h ltac:(lia)) as (evs & Hh & Ho & Hb & Hc).
    exists evs. repeat split; try assumption. lia.
  - intros Hfuel. apply walk_closed_issues_fuelled; simpl; lia.
Qed.

End PaginatorMore.

(** ** Identities, windows and timestamps *)

Section AggregatorMore.
Context {env : Env} {seed : HashSeed}.

(** X8.  The identity a commit is counted under is the author login, else
    the committer login, else the committer e-mail, else the placeholder
    "unknown", where a missing value and an empty string both count as
    absent; it is never the empty string. *)
Theorem committer_identity_priority c :
  committer_identity c <> ""
  /\ (forall l, nonempty (author_login c) = Some l -> committer_identity c = l)
  /\ (forall l, nonempty (author_login c) = None ->
       nonempty (committer_login c) = Some l -> committer_identity c = l)
  /\ (forall m, nonempty (author_login c) = None ->
       nonempty (committer_login c) = None ->
       nonempty (commit_committer_email c) = Some m -> committer_identity c = m)
  /\ (nonempty (author_login c) = None ->
      nonempty (committer_login c) = None ->
      nonempty (commit_committer_email c) = None ->
      committer_identity c = "unknown").
Proof.
  unfold committer_identity, py_or.
  destruct (author_login c) as [[| a l] |], (committer_login c) as [[| b l'] |],
    (commit_committer_email c) as [[| d m] |]; simpl;
    repeat split; try discriminate; intros; congruence.
Qed.

Lemma set_add_NoDup x s : NoDup s -> NoDup (set_add x s).
Proof.
  intros Hs. unfold set_add. destruct (existsb (String.eqb x) s) eqn:Hmem;
    [exact Hs |].
  rewrite set_place_perm. apply NoDup_cons_2; [| exact Hs].
  intros Hin. apply list_elem_of_In in Hin.
  assert (existsb (String.eqb x) s = true); [| congruence].
  apply existsb_exists. exists x. split; [exact Hin | apply String.eqb_refl].
Qed.

Lemma remove_dups_length_le (l : list string) :
  (length (remove_dups l) <= length l)%nat.
Proof.
  induction l as [| x l IH]; simpl; [lia |].
  destruct (decide_rel elem_of x l); simpl; lia.
Qed.

Lemma committers_loop_NoDup all_commits s :
  NoDup s -> NoDup (committers_loop all_commits s).
Proof.
  unfold committers_loop. revert s.
  induction all_commits as [| c cs IH]; intros s Hs; simpl; [exact Hs |].
  apply IH, set_add_NoDup, Hs.
Qed.

(** X9.  The unique-committer set holds each identity of the listing once:
    its size is the number of distinct identities, whatever order the hash
    gives the set; it is at most the number of commits, and it is zero only
    for an empty listing. *)
Theorem committers_are_distinct_identities all_commits :
  let identities := map committer_identity all_commits in
  set_len (committers_loop all_commits [])
    = Z.of_nat (length (remove_dups identities))
  /\ set_len (committers_loop all_commits []) <= Z.of_nat (length all_commits)
  /\ (set_len (committers_loop all_commits []) = 0 <-> all_commits = []).
Proof.
  intros identities.
  assert (Hperm : committers_loop all_commits [] ≡ₚ remove_dups identities).
  { apply NoDup_Permutation.
    - apply committers_loop_NoDup. constructor.
    - apply NoDup_remove_dups.
    - intros y. rewrite elem_of_remove_dups, !list_elem_of_In.
      rewrite committers_loop_In. unfold identities. rewrite in_map_iff.
      split.
      + intros [[] | (c & Hc & ->)]. eauto.
      + intros (c & <- & Hc). eauto. }
  assert (Hlen : length (committers_loop all_commits [])
                 = length (remove_dups identities))
    by now apply Permutation_length.
  unfold set_len. rewrite Hlen. split; [reflexivity |]. split.
  - pose proof (remove_dups_length_le identities) as Hle.
    unfold identities in Hle at 2. rewrite length_map in Hle. lia.
  - split.
    + intros H0. destruct all_commits as [| c cs]; [reflexivity |].
      exfalso. assert (Hin : committer_identity c ∈ remove_dups identities).
      { apply elem_of_remove_dups. unfold identities. simpl. left. }
      destruct (remove_dups identities); [inversion Hin | simpl in H0; lia].
    + intros ->. reflexivity.
Qed.

Lemma dt_ge_aware dt six_months_ago offset :
  utcoffset six_months_ago = Some offset ->
  (exists b, dt_ge dt six_months_ago = Ok b) \/
  (utcoffset dt = None /\ dt_ge dt six_months_ago = Raise TypeError).
Proof.
  intros Hoff. unfold dt_ge. rewrite Hoff.
  destruct (utcoffset dt); [left; eauto | right; auto].
Qed.

(** X10.  With a timezone-aware window boundary and no commit whose date
    parses to a naive datetime, the window loop ends well and adds to the
    count exactly the number of commits whose date is there, parses and is
    not before the boundary; the boundary itself is inside the window.  The
    set of commit days grows by at most that number. *)
Theorem window_count_is_number_in_window six_months_ago offset recent_commits
    n days :
  utcoffset six_months_ago = Some offset ->
  Forall (fun c => ~ naive_dated c) recent_commits ->
  let counted := List.filter (dated_in_window six_months_ago) recent_commits in
  (exists days',
     window_loop six_months_ago recent_commits n days
       = Ok (n + Z.of_nat (length counted), days')
     /\ (length days' <= length days + length counted)%nat)
  /\ (forall c date_str,
       nonempty (commit_committer_date c) = Some date_str ->
       parse_date date_str = Some six_months_ago ->
       dated_in_window six_months_ago c = true).
Proof.
  intros Hoff Haware counted. split.
  - subst counted. revert n days.
    induction Haware as [| c rest Hc _ IH]; intros n days.
    + exists days. simpl. split; [f_equal; f_equal; lia | lia].
    + cbn [window_loop List.filter].
      assert (Hw : forall b, dated_in_window six_months_ago c = b ->
                dated_in_window six_months_ago c = b) by auto.
      unfold dated_in_window at 1 in Hw.
      destruct (nonempty (commit_committer_date c)) as [date_str |] eqn:Hd;
        [| rewrite (Hw false eq_refl); apply IH].
      destruct (parse_date date_str) as [dt |] eqn:Hp;
        [| rewrite (Hw false eq_refl); apply IH].
      destruct (dt_ge_aware dt six_months_ago offset Hoff)
        as [[b Hge] | [Hnaive _]].
      * rewrite Hge in Hw |- *.
        destruct b; [| rewrite (Hw false eq_refl); apply IH].
        rewrite (Hw true eq_refl).
        destruct (IH (n + 1) (set_add (date_isoformat dt) days))
          as (days' & -> & Hlen).
        exists days'. split; [f_equal; f_equal; simpl length; lia |].
        assert (length (set_add (date_isoformat dt) days) <= S (length days))%nat.
        { unfold set_add. destruct (existsb _ days); [lia |].
          rewrite set_place_perm. simpl. lia. }
        simpl length. lia.
      * destruct Hc. now exists date_str, dt.
  - intros c date_str Hd Hp. unfold dated_in_window, dt_ge.
    rewrite Hd, Hp, Hoff. now rewrite Z.leb_refl.
Qed.

(** X11.  [fromisoformat] accepts timestamps without a UTC offset, and the
    collector compares them with, and subtracts them from, timezone-aware
    datetimes: the [TypeError] this raises is caught nowhere.  The window
    loop raises it at the first commit dated that way, the close-time loop
    at the first issue closed at such a time, and the age block for a
    repository created at such a time. *)
Theorem naive_timestamps_raise_type_error six_months_ago offset :
  utcoffset six_months_ago = Some offset ->
  (forall recent_commits n days,
     Exists naive_dated recent_commits ->
     window_loop six_months_ago recent_commits n days = Raise TypeError)
  /\ (forall it rest close_deltas created_at closed_at cdt xdt,
       nonempty (it_created_at it) = Some created_at ->
       nonempty (it_closed_at it) = Some closed_at ->
       parse_date created_at = Some cdt -> parse_date closed_at = Some xdt ->
       utcoffset xdt = None ->
       close_deltas_loop six_months_ago (it :: rest) close_deltas
       = Raise TypeError)
  /\ (forall created_str created_dt latest_commit_date h,
       created_str <> "" -> parse_date created_str = Some created_dt ->
       utcoffset created_dt = None ->
       repo_age_block (Some created_str) latest_commit_date h
       = (Raise TypeError, h ++ [EvClock])).
Proof.
  intros Hoff. split; [| split].
  - intros recent_commits n days Hex. revert n days.
    induction recent_commits as [| c rest IH]; intros n days;
      [inversion Hex |].
    cbn [window_loop].
    destruct (nonempty (commit_committer_date c)) as [date_str |] eqn:Hd.
    + destruct (parse_date date_str) as [dt |] eqn:Hp.
      * destruct (dt_ge_aware dt six_months_ago offset Hoff)
          as [[b Hge] | [Hnaive ->]]; [| reflexivity].
        rewrite Hge.
        assert (Hrest : Exists naive_dated rest).
        { apply Exists_cons in Hex as [(s & dt' & Hs & Hp' & Hn) | Hrest];
            [| exact Hrest].
          rewrite Hd in Hs. injection Hs as <-. rewrite Hp in Hp'.
          injection Hp' as <-. unfold dt_ge in Hge. rewrite Hn, Hoff in Hge.
          discriminate Hge. }
        destruct b; now apply IH.
      * apply IH. apply Exists_cons in Hex as [(s & dt' & Hs & Hp' & _) | Hrest];
          [congruence | exact Hrest].
    + apply IH. apply Exists_cons in Hex as [(s & dt' & Hs & _) | Hrest];
        [congruence | exact Hrest].
  - intros it rest close_deltas created_at closed_at cdt xdt Hc Hx Hpc Hpx Hn.
    cbn [close_deltas_loop]. rewrite Hc, Hx, Hpc, Hpx.
    unfold dt_ge. now rewrite Hn, Hoff.
  - intros created_str created_dt latest_commit_date h Hne Hp Hn.
    unfold repo_age_block. rewrite (nonempty_Some _ Hne), Hp.
    unfold bind, datetime_now_utc, read_clock, lift, dt_sub, ret. simpl.
    now rewrite Hn.
Qed.

End AggregatorMore.

(** ** Close times and their average *)

Section CloseTimes.
Context {env : Env}.

Lemma close_deltas_loop_appends six_months_ago closed_recent_items close_deltas
    result :
  close_deltas_loop six_months_ago closed_recent_items close_deltas = Ok result ->
  exists new,
    result = close_deltas ++ new
    /\ (length new <= length closed_recent_items)%nat
    /\ Forall (fun d => 0 <= d)%Q new.
Proof.
  revert close_deltas.
  induction closed_recent_items as [| it rest IH]; intros close_deltas.
  - intros [= <-]. exists []. rewrite app_nil_r.
    repeat split; [simpl; lia | constructor].
  - cbn [close_deltas_loop].
    assert (Hskip : close_deltas_loop six_months_ago rest close_deltas = Ok result ->
      exists new, result = close_deltas ++ new
        /\ (length new <= length (it :: rest))%nat
        /\ Forall (fun d => 0 <= d)%Q new).
    { intros Hrun. destruct (IH _ Hrun) as (new & -> & Hlen & Hpos).
      exists new. repeat split; [simpl; lia | exact Hpos]. }
    destruct (nonempty (it_created_at it)) as [created_at |]; [| exact Hskip].
    destruct (nonempty (it_closed_at it)) as [closed_at |]; [| exact Hskip].
    destruct (parse_date created_at) as [cdt |]; [| exact Hskip].
    destruct (parse_date closed_at) as [xdt |]; [| exact Hskip].
    destruct (dt_ge xdt six_months_ago) as [[|] | e |]; try discriminate;
      [| exact Hskip].
    destruct (dt_sub xdt cdt) as [td | e |]; try discriminate.
    destruct (Qle_bool 0 (td_in_days td)) eqn:Hle; [| exact Hskip].
    intros Hrun. destruct (IH _ Hrun) as (new & -> & Hlen & Hpos).
    exists (td_in_days td :: new). rewrite <- app_assoc.
    repeat split; [simpl; lia |].
    constructor; [now apply Qle_bool_iff | exact Hpos].
Qed.

(** X12.  The close-time loop yields at most one delta for each issue it is
    given, and no negative delta. *)
Theorem close_deltas_are_nonnegative six_months_ago closed_recent_items
    close_deltas :
  close_deltas_loop six_months_ago closed_recent_items [] = Ok close_deltas ->
  (length close_deltas <= length closed_recent_items)%nat
  /\ Forall (fun d => 0 <= d)%Q close_deltas.
Proof.
  intros Hrun.
  apply close_deltas_loop_appends in Hrun as (new & -> & Hlen & Hpos).
  now split.
Qed.

End CloseTimes.

Lemma round_half_even_near (y : Q) :
  (inject_Z (round_half_even y) - y <= 1 # 2)%Q
  /\ (y - inject_Z (round_half_even y) <= 1 # 2)%Q.
Proof.
  unfold round_half_even.
  pose proof (Qfloor_le y) as Hlo. pose proof (Qlt_floor y) as Hhi.
  set (f := Qfloor y) in *.
  assert (Hf1 : (inject_Z (f + 1) == inject_Z f + 1)%Q)
    by (rewrite inject_Z_plus; reflexivity).
  destruct (Qcompare_spec (y - inject_Z f) (1 # 2)) as [Heq | Hlt | Hgt].
  - destruct (Z.even f); [| rewrite Hf1]; lra.
  - lra.
  - rewrite Hf1. lra.
Qed.

Lemma py_round2_nonneg (x : Q) : (0 <= x)%Q -> (0 <= py_round2 x)%Q.
Proof.
  intros Hx. unfold py_round2. rewrite Qred_correct.
  destruct (round_half_even_near (x * (100 # 1))) as [_ H2].
  set (n := round_half_even (x * (100 # 1))) in *.
  assert (Hn : (- (1 # 2) <= inject_Z n)%Q) by lra.
  unfold Qle in *. simpl in *. lia.
Qed.

Lemma py_sum_nonneg (l : list Q) :
  Forall (fun d => 0 <= d)%Q l -> (0 <= py_sum l)%Q.
Proof.
  intros Hl. unfold py_sum.
  assert (Hgen : forall acc, (0 <= acc)%Q -> (0 <= fold_left Qplus l acc)%Q).
  { induction Hl as [| d l Hd _ IH]; intros acc Hacc; simpl; [exact Hacc |].
    apply IH. lra. }
  apply Hgen. lra.
Qed.

(** ** Age, activity and the shape of a record *)

Section RecordShape.
Context {env : Env}.

(** X14.  When the age block ends well, an activity span is only ever
    reported together with an age.  The age is the whole number of days,
    rounded down, from the creation timestamp to the clock, which the block
    reads once; the span is the whole number of days, rounded down, from the
    creation to the latest commit. *)
Theorem repo_age_block_outcomes created_at latest_commit_date h age span h' :
  repo_age_block created_at latest_commit_date h = (Ok (age, span), h') ->
  (span <> None -> age <> None)
  /\ (forall a, age = Some a ->
       exists created_str created_dt offset,
         nonempty created_at = Some created_str
         /\ parse_date created_str = Some created_dt
         /\ utcoffset created_dt = Some offset
         /\ h' = h ++ [EvClock]
         /\ a = (clock h - 0 - (wall created_dt - offset)) / day_us)
  /\ (forall d, span = Some d ->
       exists created_str created_dt latest_str latest_dt td,
         nonempty created_at = Some created_str
         /\ parse_date created_str = Some created_dt
         /\ nonempty latest_commit_date = Some latest_str
         /\ parse_date latest_str = Some latest_dt
         /\ dt_sub latest_dt created_dt = Ok td
         /\ d = td / day_us).
Proof.
  unfold repo_age_block.
  destruct (nonempty created_at) as [created_str |];
    [| intros [= <- <- <-]; repeat split; congruence].
  destruct (parse_date created_str) as [created_dt |] eqn:Hpc;
    [| intros [= <- <- <-]; repeat split; congruence].
  destruct (nonempty latest_commit_date) as [latest_str |];
    [destruct (parse_date latest_str) as [latest_dt |] eqn:Hpl;
     [destruct (dt_sub latest_dt created_dt) as [td | e |] eqn:Hsub |] |];
    unfold bind, datetime_now_utc, read_clock, ret, lift, dt_sub;
    cbn [utcoffset wall];
    destruct (utcoffset created_dt) as [offset |] eqn:Hoff; try discriminate;
    intros [= <- <- <-];
    (split; [congruence |]); split;
    try (intros ? [=]; fail);
    try (intros a [= <-]; exists created_str, created_dt, offset;
         repeat split; assumption).
  intros d [= <-]. exists created_str, created_dt, latest_str, latest_dt, td.
  repeat split; assumption.
Qed.

End RecordShape.

(** ** Records and runs *)

Section Runs.
Context {env : Env} {seed : HashSeed}.

(** Every step a collection that ended well went through. *)
Lemma collect_repo_steps fuel six_months_ago six_months_iso row owner repo
    repo_info h record h' :
  collect_repo fuel six_months_ago six_months_iso row owner repo repo_info h
    = (Ok record, h') ->
  exists total_commits latest_commit_date recent_commits commits_last_6m
         unique_commit_days all_commits total_issues open_issues
         closed_issues issues_opened_last_6m closed_recent_items close_deltas
         repo_age_days days_of_activity h1 h2 h3 h4 h5 h6 h7 h8 h9,
    _get_total_commits_count owner repo h = (Ok total_commits, h1)
    /\ _get_latest_commit_date owner repo h1 = (Ok latest_commit_date, h2)
    /\ _collect_commits_since fuel owner repo six_months_iso h2
       = (Ok recent_commits, h3)
    /\ window_loop six_months_ago recent_commits 0 []
       = Ok (commits_last_6m, unique_commit_days)
    /\ _collect_all_commits fuel owner repo h3 = (Ok all_commits, h4)
    /\ _search_issues_count owner repo "type:issue" h4 = (Ok total_issues, h5)
    /\ _search_issues_count owner repo "type:issue state:open" h5
       = (Ok open_issues, h6)
    /\ _search_issues_count owner repo "type:issue state:closed" h6
       = (Ok closed_issues, h7)
    /\ _search_issues_count owner repo
         ("type:issue created:>=" +:+ date_isoformat six_months_ago) h7
       = (Ok issues_opened_last_6m, h8)
    /\ _fetch_closed_issues_for_average fuel owner repo
         (isoformat six_months_ago) h8
       = (Ok closed_recent_items, h9)
    /\ close_deltas_loop six_months_ago closed_recent_items [] = Ok close_deltas
    /\ repo_age_block (ri_created_at repo_info) latest_commit_date h9
       = (Ok (repo_age_days, days_of_activity), h')
    /\ record
       = dict_union row
           (derived_fields repo_info (ri_created_at repo_info) repo_age_days
              open_issues closed_issues total_issues issues_opened_last_6m
              (avg_issue_close_time close_deltas) total_commits
              latest_commit_date days_of_activity commits_last_6m
              (committers_loop all_commits [])).
Proof.
  unfold collect_repo. intros H.
  apply bind_inv_ok in H as (total_commits & h1 & H1 & H).
  apply bind_inv_ok in H as (latest_commit_date & h2 & H2 & H).
  apply bind_inv_ok in H as (recent_commits & h3 & H3 & H).
  apply bind_inv_ok in H as ([commits_last_6m unique_commit_days] & h3' & Hw & H).
  unfold lift in Hw. injection Hw as Hw <-.
  apply bind_inv_ok in H as (all_commits & h4 & H4 & H).
  apply bind_inv_ok in H as (total_issues & h5 & H5 & H).
  apply bind_inv_ok in H as (open_issues & h6 & H6 & H).
  apply bind_inv_ok in H as (closed_issues & h7 & H7 & H).
  apply bind_inv_ok in H as (issues_opened_last_6m & h8 & H8 & H).
  apply bind_inv_ok in H as (closed_recent_items & h9 & H9 & H).
  apply bind_inv_ok in H as (close_deltas & h9' & Hd & H).
  unfold lift in Hd. injection Hd as Hd <-.
  apply bind_inv_ok in H as ([repo_age_days days_of_activity] & h10 & Hage & H).
  injection H as <- <-.
  exists total_commits, latest_commit_date, recent_commits, commits_last_6m,
    unique_commit_days, all_commits, total_issues, open_issues, closed_issues,
    issues_opened_last_6m, closed_recent_items, close_deltas, repo_age_days,
    days_of_activity, h1, h2, h3, h4, h5, h6, h7, h8, h9.
  repeat split; assumption.
Qed.

Lemma dict_get_absent (d : Dict) k : ~ In k (map fst d) -> dict_get d k = None.
Proof.
  induction d as [| [k0 v0] d IH]; simpl; [reflexivity |].
  intros Hk. destruct (String.eqb_spec k k0) as [-> | _]; [tauto |].
  apply IH. tauto.
Qed.

Lemma dict_get_present (d : Dict) k : In k (map fst d) -> exists v, dict_get d k = Some v.
Proof.
  induction d as [| [k0 v0] d IH]; simpl; [tauto |].
  intros Hk. destruct (String.eqb_spec k k0) as [-> | Hne]; [eauto |].
  apply IH. destruct Hk; congruence.
Qed.

Lemma derived_fields_keys repo_info created_at repo_age_days open_issues
    closed_issues total_issues issues_opened_last_6m avg total_commits
    latest_commit_date days_of_activity commits_last_6m unique_committers :
  map fst
    (derived_fields repo_info created_at repo_age_days open_issues closed_issues
       total_issues issues_opened_last_6m avg total_commits latest_commit_date
       days_of_activity commits_last_6m unique_committers)
  = derived_keys.
Proof. reflexivity. Qed.

(** A record keeps what its row holds under every key that is not a derived
    one. *)
Lemma collect_repo_keeps_row fuel six_months_ago six_months_iso row owner repo
    repo_info h record h' :
  collect_repo fuel six_months_ago six_months_iso row owner repo repo_info h
    = (Ok record, h') ->
  forall k, ~ In k derived_keys -> dict_get record k = dict_get row k.
Proof.
  intros Hrun. apply collect_repo_inv in Hrun
    as (total_commits & latest_commit_date & commits_last_6m
        & unique_committers & total_issues & open_issues & closed_issues
        & issues_opened_last_6m & avg & repo_age_days & days_of_activity
        & h1 & _ & ->).
  intros k Hk. rewrite dict_get_union, dict_get_absent; [reflexivity |].
  rewrite map_rev, derived_fields_keys, <- in_rev. exact Hk.
Qed.

(** X15.  Every record that is emitted has each of the sixteen derived
    columns, whatever the row held under those names; every other column of
    the input row is in the record with the value it had; and the metadata
    columns hold the fields of the repository-info response as they came. *)
Theorem emitted_record_schema fuel six_months_ago six_months_iso row owner repo
    repo_info h record h' :
  collect_repo fuel six_months_ago six_months_iso row owner repo repo_info h
    = (Ok record, h') ->
  (forall k, In k derived_keys -> exists v, dict_get record k = Some v)
  /\ (forall k, ~ In k derived_keys -> dict_get record k = dict_get row k)
  /\ dict_get record "language" = Some (opt_str (ri_language repo_info))
  /\ dict_get record "createdAt" = Some (opt_str (ri_created_at repo_info))
  /\ dict_get record "forks" = Some (opt_int (ri_forks_count repo_info))
  /\ dict_get record "watchers" = Some (opt_int (ri_watchers_count repo_info))
  /\ dict_get record "stars" = Some (opt_int (ri_stargazers_count repo_info)).
Proof.
  intros Hrun. apply collect_repo_inv in Hrun
    as (total_commits & latest_commit_date & commits_last_6m
        & unique_committers & total_issues & open_issues & closed_issues
        & issues_opened_last_6m & avg & repo_age_days & days_of_activity
        & h1 & _ & ->).
  split; [| split; [| repeat split; now apply emitted_field]].
  - intros k Hk.
    destruct (dict_get_present
                (derived_fields repo_info (ri_created_at repo_info)
                   repo_age_days open_issues closed_issues total_issues
                   issues_opened_last_6m avg total_commits latest_commit_date
                   days_of_activity commits_last_6m unique_committers) k)
      as [v Hv]; [now rewrite derived_fields_keys |].
    exists v. now apply emitted_field.
  - intros k Hk. rewrite dict_get_union, dict_get_absent; [reflexivity |].
    rewrite map_rev, derived_fields_keys, <- in_rev. exact Hk.
Qed.

(** What the loop over the rows adds to the list of records, when it ends
    well: one record for each row of a sublist of the rows, in their order. *)
Lemma rows_loop_emits fuel six_months_ago six_months_iso df repo_data h out h' :
  rows_loop fuel six_months_ago six_months_iso df repo_data h = (Ok out, h') ->
  exists rows new,
    out = repo_data ++ new
    /\ sublist rows df
    /\ Forall resolvable rows
    /\ Forall2
         (fun row record =>
            forall k, ~ In k derived_keys -> dict_get record k = dict_get row k)
         rows new.
Proof.
  revert repo_data h. induction df as [| row df IH]; intros repo_data h.
  - intros [= <- <-]. exists [], []. rewrite app_nil_r.
    repeat split; constructor.
  - cbn [rows_loop].
    assert (Hskip :
      rows_loop fuel six_months_ago six_months_iso df repo_data h = (Ok out, h') ->
      exists rows new, out = repo_data ++ new /\ sublist rows (row :: df)
        /\ Forall resolvable rows
        /\ Forall2 (fun row record => forall k, ~ In k derived_keys ->
                      dict_get record k = dict_get row k) rows new).
    { intros Hrun. destruct (IH _ _ Hrun) as (rows & new & -> & Hsub & Hres & Hall).
      exists rows, new. repeat split; try assumption. now apply sublist_cons. }
    destruct (dict_get row "Github_links") as [[| | | | github_url] |] eqn:Hlink;
      try exact Hskip.
    destruct (pattern_search github_url) as [[owner repo] |] eqn:Hmatch;
      [| exact Hskip].
    intros Hrun. apply bind_inv_ok in Hrun as (repo_resp & h1 & Hreq & Hrun).
    destruct (negb _).
    + destruct (IH _ _ Hrun) as (rows & new & -> & Hsub & Hres & Hall).
      exists rows, new. repeat split; try assumption. now apply sublist_cons.
    + apply bind_inv_ok in Hrun as (record & h2 & Hrec & Hrun).
      destruct (IH _ _ Hrun) as (rows & new & -> & Hsub & Hres & Hall).
      exists (row :: rows), (record :: new). rewrite <- app_assoc.
      repeat split.
      * now apply sublist_skip.
      * constructor; [| exact Hres]. now exists github_url, owner, repo.
      * constructor; [| exact Hall].
        now apply (collect_repo_keeps_row _ _ _ _ _ _ _ _ _ _ Hrec).
Qed.

(** X16.  A run that ends well emits at most one record for each input row,
    only for rows whose link names a repository, and in the order of the
    rows; each record carries the columns of its row that are not derived
    columns, unchanged. *)
Theorem records_follow_input_order fuel df h out h' :
  get_gh_data fuel df h = (Ok out, h') ->
  exists rows,
    sublist rows df
    /\ Forall resolvable rows
    /\ Forall2
         (fun row record =>
            forall k, ~ In k derived_keys -> dict_get record k = dict_get row k)
         rows out
    /\ (length out <= length df)%nat.
Proof.
  unfold get_gh_data. intros Hrun.
  apply bind_inv_ok in Hrun as (now & h1 & _ & Hrun).
  apply rows_loop_emits in Hrun as (rows & new & -> & Hsub & Hres & Hall).
  exists rows. repeat split; try assumption.
  simpl. rewrite <- (Forall2_length _ _ _ Hall). now apply sublist_length.
Qed.

End Runs.

(** ** Runs that emit nothing *)

Section EmptyRuns.
Context {env : Env} {seed : HashSeed}.

Lemma rows_loop_unresolvable fuel six_months_ago six_months_iso df repo_data h :
  Forall (fun row => ~ resolvable row) df ->
  rows_loop fuel six_months_ago six_months_iso df repo_data h = (Ok repo_data, h).
Proof.
  induction 1 as [| row df Hrow _ IH]; [reflexivity |].
  cbn [rows_loop].
  destruct (dict_get row "Github_links") as [[| | | | github_url] |] eqn:Hlink;
    try exact IH.
  destruct (pattern_search github_url) as [[owner repo] |] eqn:Hmatch;
    [| exact IH].
  destruct Hrow. now exists github_url, owner, repo.
Qed.

(** X17.  Over rows none of whose links names a repository (the column is
    absent, holds no string, or does not match the pattern), the run reads
    the clock once, issues no GET, never sleeps, and emits nothing. *)
Theorem unresolvable_rows_cost_no_request fuel df h :
  Forall (fun row => ~ resolvable row) df ->
  get_gh_data fuel df h = (Ok [], h ++ [EvClock]).
Proof.
  intros Hdf. unfold get_gh_data, bind, datetime_now_utc, read_clock, ret.
  now apply rows_loop_unresolvable.
Qed.

(** Against a server that cannot be reached the loop of the executor ends
    with [resp] as it found it, after a GET for each attempt. *)
Lemma safe_request_loop_unreachable e params n h :
  (forall h0, exists x, upstream e h0 params = Failed x) ->
  exists evs,
    safe_request_loop e params n None h = (Raise UnboundLocalError, h ++ evs)
    /\ get_count evs = n.
Proof.
  intros Hdown. revert h. induction n as [| n IH]; intros h.
  - exists []. now rewrite app_nil_r.
  - destruct (Hdown h) as [x Hup].
    rewrite safe_request_loop_step, Hup. cbv zeta.
    destruct (IH ((h ++ [EvGet (url_of e) params]) ++ [EvSleep (3 # 2)]))
      as (evs & -> & Hn).
    exists ([EvGet (url_of e) params] ++ [EvSleep (3 # 2)] ++ evs).
    rewrite <- !app_assoc. split; [reflexivity |].
    rewrite !get_count_app, Hn. reflexivity.
Qed.

Lemma rows_loop_unreachable fuel six_months_ago six_months_iso df repo_data h :
  (forall e h0 params, exists x, upstream e h0 params = Failed x) ->
  Exists resolvable df ->
  exists evs,
    rows_loop fuel six_months_ago six_months_iso df repo_data h
    = (Raise UnboundLocalError, h ++ evs)
    /\ get_count evs = 5%nat.
Proof.
  intros Hdown Hex. induction df as [| row df IH]; [inversion Hex |].
  cbn [rows_loop].
  assert (Hrest : ~ resolvable row ->
    exists evs,
      rows_loop fuel six_months_ago six_months_iso df repo_data h
      = (Raise UnboundLocalError, h ++ evs) /\ get_count evs = 5%nat).
  { intros Hrow. apply IH. apply Exists_cons in Hex as [Hrow' | Hrest];
      [contradiction | exact Hrest]. }
  destruct (dict_get row "Github_links") as [[| | | | github_url] |] eqn:Hlink;
    try (apply Hrest; intros (u & o & r & Hu & _); rewrite Hlink in Hu;
         discriminate Hu).
  destruct (pattern_search github_url) as [[owner repo] |] eqn:Hmatch.
  - destruct (safe_request_loop_unreachable (RepoApi owner repo) None 5 h
                (fun h0 => Hdown _ h0 None)) as (evs & Hrun & Hn).
    exists evs. unfold bind, _safe_request. now rewrite Hrun.
  - apply Hrest. intros (u & o & r & Hu & Hm). rewrite Hlink in Hu.
    injection Hu as <-. congruence.
Qed.

(** X18.  When the server cannot be reached, the first row whose link names
    a repository ends the run: the [UnboundLocalError] of the executor
    crosses [get_gh_data] after the five GETs of that one repository-info
    request, whatever rows follow, and no record is returned. *)
Theorem unreachable_server_halts_run fuel df h :
  (forall e h0 params, exists x, upstream e h0 params = Failed x) ->
  Exists resolvable df ->
  exists evs,
    get_gh_data fuel df h = (Raise UnboundLocalError, (h ++ [EvClock]) ++ evs)
    /\ get_count evs = 5%nat.
Proof.
  intros Hdown Hex. unfold get_gh_data, bind, datetime_now_utc, read_clock, ret.
  now apply rows_loop_unreachable.
Qed.

End EmptyRuns.

(** ** What reaches the record *)

Section RecordValues.
Context {env : Env} {seed : HashSeed}.

Lemma window_loop_bounds six_months_ago recent_commits n days n' days' :
  window_loop six_months_ago recent_commits n days = Ok (n', days') ->
  n <= n' <= n + Z.of_nat (length recent_commits).
Proof.
  revert n days. induction recent_commits as [| c rest IH]; intros n days.
  - intros [= <- <-]. simpl. lia.
  - cbn [window_loop length].
    assert (Hskip : window_loop six_months_ago rest n days = Ok (n', days') ->
              n <= n' <= n + Z.of_nat (S (length rest))).
    { intros Hrun. apply IH in Hrun. lia. }
    destruct (nonempty (commit_committer_date c)) as [date_str |];
      [| exact Hskip].
    destruct (parse_date date_str) as [dt |]; [| exact Hskip].
    destruct (dt_ge dt six_months_ago) as [[|] | e |]; try discriminate;
      [| exact Hskip].
    intros Hrun. apply IH in Hrun. lia.
Qed.

(** X19.  In every record that is emitted, the 6-month commit count is an
    integer between 0 and the number of commits the since-walk brought back,
    the committer count is an integer between 0 and the number of commits
    the full walk brought back, and the average close time is the integer 0
    or a float that is not negative. *)
Theorem activity_metrics_are_bounded fuel six_months_ago six_months_iso row
    owner repo repo_info h record h' :
  collect_repo fuel six_months_ago six_months_iso row owner repo repo_info h
    = (Ok record, h') ->
  (exists n recent_commits h2 h3,
     _collect_commits_since fuel owner repo six_months_iso h2
       = (Ok recent_commits, h3)
     /\ dict_get record "commitsInLast6Months" = Some (VInt n)
     /\ 0 <= n <= Z.of_nat (length recent_commits))
  /\ (exists m all_commits h3 h4,
       _collect_all_commits fuel owner repo h3 = (Ok all_commits, h4)
       /\ dict_get record "committersParticipation" = Some (VInt m)
       /\ 0 <= m <= Z.of_nat (length all_commits))
  /\ (dict_get record "AvgIssueCloseTime" = Some (VInt 0)
      \/ exists avg,
           dict_get record "AvgIssueCloseTime" = Some (VFloat avg)
           /\ (0 <= avg)%Q).
Proof.
  intros Hrun. apply collect_repo_steps in Hrun
    as (total_commits & latest_commit_date & recent_commits & commits_last_6m
        & unique_commit_days & all_commits & total_issues & open_issues
        & closed_issues & issues_opened_last_6m & closed_recent_items
        & close_deltas & repo_age_days & days_of_activity
        & h1 & h2 & h3 & h4 & h5 & h6 & h7 & h8 & h9
        & _ & _ & Hsince & Hwin & Hall & _ & _ & _ & _ & _ & Hdeltas & _ & ->).
  split; [| split].
  - exists commits_last_6m, recent_commits, h2, h3.
    split; [exact Hsince |]. split; [now apply emitted_field |].
    apply window_loop_bounds in Hwin. lia.
  - exists (set_len (committers_loop all_commits [])), all_commits, h3, h4.
    split; [exact Hall |]. split.
    + apply emitted_field. simpl.
      destruct (committers_loop all_commits []); reflexivity.
    + assert (Hperm : committers_loop all_commits []
                      ≡ₚ remove_dups (map committer_identity all_commits)).
      { apply NoDup_Permutation.
        - apply committers_loop_NoDup. constructor.
        - apply NoDup_remove_dups.
        - intros y. rewrite elem_of_remove_dups, !list_elem_of_In.
          rewrite committers_loop_In, in_map_iff. split.
          + intros [[] | (c & Hc & ->)]. eauto.
          + intros (c & <- & Hc). eauto. }
      unfold set_len. rewrite (Permutation_length Hperm).
      pose proof (remove_dups_length_le (map committer_identity all_commits)) as Hle.
      rewrite length_map in Hle. lia.
  - destruct (avg_issue_close_time close_deltas) as [avg |] eqn:Havg.
    + right. exists avg. split; [now apply emitted_field |].
      apply close_deltas_loop_appends in Hdeltas as (new & -> & _ & Hpos).
      simpl in Havg. unfold avg_issue_close_time in Havg.
      destruct new as [| d ds]; [discriminate |]. injection Havg as <-.
      apply py_round2_nonneg. apply Qle_shift_div_l.
      * unfold Qlt. simpl. lia.
      * rewrite Qmult_0_l. now apply py_sum_nonneg.
    + left. now apply emitted_field.
Qed.

Lemma search_count_without_200 owner repo q h v h1 :
  (forall h0 params r,
     upstream SearchIssuesApi h0 params = Responded r -> status_code r <> 200) ->
  _search_issues_count owner repo q h = (Ok v, h1) -> v = None.
Proof.
  intros Hdown. unfold _search_issues_count. intros Hrun.
  apply bind_inv_ok in Hrun as (resp & h2 & Hreq & Hrun).
  apply safe_request_loop_returns in Hreq as [[Hr | [h0 Hr]] _];
    [discriminate Hr |].
  apply Hdown in Hr. rewrite (proj2 (Z.eqb_neq _ _) Hr) in Hrun.
  now injection Hrun as <- _.
Qed.

Lemma closed_issues_without_200 fuel owner repo closed_since_iso h found h1 :
  (forall h0 params r,
     upstream SearchIssuesApi h0 params = Responded r -> status_code r <> 200) ->
  _fetch_closed_issues_for_average fuel owner repo closed_since_iso h
    = (Ok found, h1) ->
  found = [].
Proof.
  intros Hdown. unfold _fetch_closed_issues_for_average.
  destruct fuel as [| fuel]; [discriminate |].
  cbn [walk_closed_issues]. intros Hrun.
  apply bind_inv_ok in Hrun as (resp & h2 & Hreq & Hrun).
  apply safe_request_loop_returns in Hreq as [[Hr | [h0 Hr]] _];
    [discriminate Hr |].
  apply Hdown in Hr. rewrite (proj2 (Z.eqb_neq _ _) Hr) in Hrun.
  now injection Hrun as <- _.
Qed.

(** X20.  In every record that is emitted while the search resource never
    answers 200, the issue columns hold the defaults: 0 for the total, the
    closed and the recently opened issues and for the average close time,
    and the [open_issues_count] of the repository-info response for the
    open issues.  Whether a record is emitted is not part of the
    statement: it is when each search is answered and the rest of the
    collection ends well, and it is not when a search fails on all five
    attempts, which ends the run. *)
Theorem failed_issue_searches_leave_defaults fuel six_months_ago six_months_iso
    row owner repo repo_info h record h' :
  (forall h0 params r,
     upstream SearchIssuesApi h0 params = Responded r -> status_code r <> 200) ->
  collect_repo fuel six_months_ago six_months_iso row owner repo repo_info h
    = (Ok record, h') ->
  dict_get record "totalIssues" = Some (VInt 0)
  /\ dict_get record "closedIssues" = Some (VInt 0)
  /\ dict_get record "issuesOpenedLast6Months" = Some (VInt 0)
  /\ dict_get record "AvgIssueCloseTime" = Some (VInt 0)
  /\ dict_get record "openIssues"
     = Some (opt_int (ri_open_issues_count repo_info)).
Proof.
  intros Hdown Hrun. apply collect_repo_steps in Hrun
    as (total_commits & latest_commit_date & recent_commits & commits_last_6m
        & unique_commit_days & all_commits & total_issues & open_issues
        & closed_issues & issues_opened_last_6m & closed_recent_items
        & close_deltas & repo_age_days & days_of_activity
        & h1 & h2 & h3 & h4 & h5 & h6 & h7 & h8 & h9
        & _ & _ & _ & _ & _ & Ht & Ho & Hc & Hi & Hf & Hdeltas & _ & ->).
  apply (search_count_without_200 _ _ _ _ _ _ Hdown) in Ht as ->.
  apply (search_count_without_200 _ _ _ _ _ _ Hdown) in Ho as ->.
  apply (search_count_without_200 _ _ _ _ _ _ Hdown) in Hc as ->.
  apply (search_count_without_200 _ _ _ _ _ _ Hdown) in Hi as ->.
  apply (closed_issues_without_200 _ _ _ _ _ _ _ Hdown) in Hf as ->.
  injection Hdeltas as <-.
  repeat split; now apply emitted_field.
Qed.

End RecordValues.

(** ** The link pattern *)

Lemma append_cons a s t : String a s +:+ t = String a (s +:+ t).
Proof. reflexivity. Qed.

Lemma append_empty t : "" +:+ t = t.
Proof. reflexivity. Qed.

Lemma is_prefix_spec p s :
  Str.is_prefix p s = true -> s = p +:+ Str.drop (String.length p) s.
Proof.
  revert s. induction p as [| a p IH]; intros s; [reflexivity |].
  destruct s as [| b s]; [discriminate |]. simpl.
  intros H. apply andb_true_iff in H as [Hab Hp].
  apply Ascii.eqb_eq in Hab as ->. rewrite append_cons. f_equal. now apply IH.
Qed.

Lemma span_nonslash_spec s g r :
  Str.span_nonslash s = (g, r) ->
  s = g +:+ r /\ slashless g /\ (r = "" \/ exists r', r = String "/" r').
Proof.
  revert g r. induction s as [| a s IH]; intros g r; simpl.
  - intros [= <- <-]. split; [reflexivity | split; [exact I | now left]].
  - destruct (Ascii.eqb_spec a "/") as [-> | Hne].
    + intros [= <- <-]. split; [reflexivity | split; [exact I | right; eauto]].
    + destruct (Str.span_nonslash s) as [g' r'] eqn:Hs. intros [= <- <-].
      destruct (IH g' r' eq_refl) as (-> & Hg & Hr).
      split; [reflexivity | split; [split; assumption | exact Hr]].
Qed.

Lemma span_nonslash_app g r :
  slashless g -> (r = "" \/ exists r', r = String "/" r') ->
  Str.span_nonslash (g +:+ r) = (g, r).
Proof.
  intros Hg Hr. induction g as [| a g IH].
  - rewrite append_empty. destruct Hr as [-> | [r' ->]]; reflexivity.
  - destruct Hg as [Ha Hg]. rewrite append_cons. simpl.
    rewrite (proj2 (Ascii.eqb_neq a "/") Ha). now rewrite IH.
Qed.

Lemma pattern_match_here_spec s owner repo :
  pattern_match_here s = Some (owner, repo) ->
  owner <> "" /\ repo <> "" /\ slashless owner /\ slashless repo
  /\ exists post,
       s = "github.com/" +:+ owner +:+ "/" +:+ repo +:+ post
       /\ (post = "" \/ exists post', post = String "/" post').
Proof.
  unfold pattern_match_here.
  destruct (Str.is_prefix "github.com/" s) eqn:Hp; [| discriminate].
  apply is_prefix_spec in Hp. change (String.length "github.com/") with 11%nat in Hp.
  destruct (Str.span_nonslash (Str.drop 11 s)) as [o r] eqn:Ho.
  apply span_nonslash_spec in Ho as (Hs & Ho & Hr).
  destruct o as [| a o]; [discriminate |].
  destruct r as [| b r']; [discriminate |].
  destruct Hr as [Hr | [r'' [= -> ->]]]; [discriminate |].
  destruct (Str.span_nonslash r'') as [g post] eqn:Hg.
  apply span_nonslash_spec in Hg as (-> & Hg & Hpost).
  destruct g as [| c g]; [discriminate |]. intros [= <- <-].
  repeat split; try discriminate; try apply Ho; try apply Hg.
  exists post. split; [| exact Hpost].
  rewrite Hp at 1. rewrite Hs. reflexivity.
Qed.

Lemma pattern_match_here_complete owner repo post :
  owner <> "" -> repo <> "" -> slashless owner -> slashless repo ->
  (post = "" \/ exists post', post = String "/" post') ->
  pattern_match_here ("github.com/" +:+ owner +:+ "/" +:+ repo +:+ post)
  = Some (owner, repo).
Proof.
  intros Ho Hr Hso Hsr Hpost. unfold pattern_match_here.
  rewrite !append_cons, append_empty. cbn [Str.is_prefix Str.drop Ascii.eqb Bool.eqb andb].
  rewrite (span_nonslash_app owner) by (eauto).
  destruct owner as [| a owner]; [congruence |].
  rewrite append_empty.
  rewrite (span_nonslash_app repo) by assumption.
  destruct repo as [| b repo]; [congruence |]. reflexivity.
Qed.

(** X21.  A link resolves only to what the pattern describes: the owner and
    the repository it yields are non-empty and hold no slash, and the link
    reads, somewhere, [github.com/], the owner, a slash, the repository, and
    then ends or goes on with a slash.  Conversely every link that reads so
    resolves, and to that very owner and repository when it starts with
    [github.com/]. *)
Theorem pattern_search_sound_and_complete :
  (forall s owner repo,
     pattern_search s = Some (owner, repo) ->
     owner <> "" /\ repo <> "" /\ slashless owner /\ slashless repo
     /\ exists pre post,
          s = pre +:+ "github.com/" +:+ owner +:+ "/" +:+ repo +:+ post
          /\ (post = "" \/ exists post', post = String "/" post'))
  /\ (forall pre owner repo post,
       owner <> "" -> repo <> "" -> slashless owner -> slashless repo ->
       (post = "" \/ exists post', post = String "/" post') ->
       let s := "github.com/" +:+ owner +:+ "/" +:+ repo +:+ post in
       pattern_search s = Some (owner, repo)
       /\ pattern_search (pre +:+ s) <> None).
Proof.
  split.
  - intros s. induction s as [| a s IH]; intros owner repo.
    + simpl. discriminate.
    + cbn [pattern_search].
      destruct (pattern_match_here (String a s)) as [[o r] |] eqn:Hhere.
      * intros [= <- <-]. apply pattern_match_here_spec in Hhere
          as (Ho & Hr & Hso & Hsr & post & Hs & Hpost).
        repeat split; try assumption. exists "", post. now split.
      * intros Hrest. apply IH in Hrest
          as (Ho & Hr & Hso & Hsr & pre & post & -> & Hpost).
        repeat split; try assumption. exists (String a pre), post. now split.
  - intros pre owner repo post Ho Hr Hso Hsr Hpost s.
    pose proof (pattern_match_here_complete owner repo post Ho Hr Hso Hsr Hpost)
      as Hhere. fold s in Hhere.
    assert (Hs : pattern_search s = Some (owner, repo)).
    { destruct s; cbn [pattern_search]; now rewrite Hhere. }
    split; [exact Hs |].
    induction pre as [| a pre IH]; [rewrite append_empty, Hs; discriminate |].
    change (String a pre +:+ s) with (String a (pre +:+ s)).
    cbn [pattern_search].
    destruct (pattern_match_here (String a (pre +:+ s)));
      [intros Hnone; discriminate Hnone | exact IH].
Qed.

(** ** The URLs of a run *)

Section Urls.
Context {env : Env} {seed : HashSeed}.

Lemma stays_within_ret {A} urls (a : A) : stays_within urls (ret a).
Proof. intros h. exists []. rewrite app_nil_r. split; [reflexivity | constructor]. Qed.

Lemma stays_within_lift {A} urls (o : Outcome A) : stays_within urls (lift o).
Proof. intros h. exists []. rewrite app_nil_r. split; [reflexivity | constructor]. Qed.

Lemma stays_within_bind {A B} urls (m : M A) (k : A -> M B) :
  stays_within urls m -> (forall a, stays_within urls (k a)) ->
  stays_within urls (bind m k).
Proof.
  intros Hm Hk h. destruct (Hm h) as (evs & Hh & Hg). unfold bind.
  destruct (m h) as [[a | e |] h1]; simpl in Hh; subst h1;
    try (exists evs; now split).
  destruct (Hk a (h ++ evs)) as (evs' & -> & Hg').
  exists (evs ++ evs'). rewrite <- app_assoc. split; [reflexivity |].
  now apply Forall_app_2.
Qed.

Lemma stays_within_weaken {A} urls urls' (m : M A) :
  (forall u, In u urls -> In u urls') ->
  stays_within urls m -> stays_within urls' m.
Proof.
  intros Hsub Hm h. destruct (Hm h) as (evs & Hh & Hg).
  exists evs. split; [exact Hh |].
  eapply Forall_impl; [exact Hg |]. intros ev Hev u p Heq. eauto.
Qed.

Lemma stays_within_clock urls : stays_within urls datetime_now_utc.
Proof.
  intros h. exists [EvClock]. split; [reflexivity |].
  constructor; [| constructor]. intros u p [=].
Qed.

Lemma stays_within_safe_request urls e params :
  In (url_of e) urls -> stays_within urls (_safe_request e params).
Proof.
  intros Hin h. unfold _safe_request.
  destruct (safe_request_loop_trace e params 5 None h) as (evs & Hh & Hg & _).
  exists evs. split; [exact Hh |].
  eapply Forall_impl; [exact Hg |]. intros ev Hev u p Heq.
  now destruct (Hev u p Heq) as [-> _].
Qed.

Lemma stays_within_walk_commits urls owner repo params_of fuel page commits :
  In (url_of (CommitsApi owner repo)) urls ->
  stays_within urls (walk_commits owner repo params_of fuel page commits).
Proof.
  intros Hin. revert page commits.
  induction fuel as [| fuel IH]; intros page commits; cbn [walk_commits];
    [apply stays_within_lift |].
  apply stays_within_bind; [now apply stays_within_safe_request |].
  intros resp. destruct (negb _); [apply stays_within_ret |]. cbn [Json] in *.
  destruct (json resp) as [| c batch]; [apply stays_within_ret |].
  destruct (_ <? _); [apply stays_within_ret | apply IH].
Qed.

Lemma stays_within_walk_closed urls query fuel page results :
  In (url_of SearchIssuesApi) urls ->
  stays_within urls (walk_closed_issues query fuel page results).
Proof.
  intros Hin. revert page results.
  induction fuel as [| fuel IH]; intros page results; cbn [walk_closed_issues];
    [apply stays_within_lift |].
  apply stays_within_bind; [now apply stays_within_safe_request |].
  intros resp. destruct (negb _); [apply stays_within_ret |]. cbn [Json] in *.
  destruct (items (json resp)) as [| it its]; [apply stays_within_ret |].
  destruct (_ || _); [apply stays_within_ret | apply IH].
Qed.

Lemma stays_within_search_count urls owner repo q :
  In (url_of SearchIssuesApi) urls ->
  stays_within urls (_search_issues_count owner repo q).
Proof.
  intros Hin. unfold _search_issues_count.
  apply stays_within_bind; [now apply stays_within_safe_request |].
  intros resp. destruct (negb _); apply stays_within_ret.
Qed.

Lemma stays_within_age_block urls created_at latest_commit_date :
  stays_within urls (repo_age_block created_at latest_commit_date).
Proof.
  unfold repo_age_block.
  destruct (nonempty created_at); [| apply stays_within_ret].
  destruct (parse_date _); [| apply stays_within_ret].
  apply stays_within_bind; [apply stays_within_clock |]. intros now.
  apply stays_within_bind; [apply stays_within_lift |]. intros age.
  destruct (nonempty latest_commit_date); [| apply stays_within_ret].
  destruct (parse_date _); [| apply stays_within_ret].
  apply stays_within_bind; [apply stays_within_lift |]. intros span.
  apply stays_within_ret.
Qed.

Lemma stays_within_collect_repo fuel six_months_ago six_months_iso row owner
    repo repo_info :
  stays_within [url_of (CommitsApi owner repo); url_of SearchIssuesApi]
    (collect_repo fuel six_months_ago six_months_iso row owner repo repo_info).
Proof.
  set (urls := [url_of (CommitsApi owner repo); url_of SearchIssuesApi]).
  assert (Hc : In (url_of (CommitsApi owner repo)) urls) by (left; reflexivity).
  assert (Hs : In (url_of SearchIssuesApi) urls) by (right; left; reflexivity).
  unfold collect_repo.
  apply stays_within_bind.
  { unfold _get_total_commits_count.
    apply stays_within_bind; [now apply stays_within_safe_request |].
    intros resp. destruct (negb _); [apply stays_within_ret |].
    destruct (nonempty _); apply stays_within_ret. }
  intros total_commits. apply stays_within_bind.
  { unfold _get_latest_commit_date.
    apply stays_within_bind; [now apply stays_within_safe_request |].
    intros resp. destruct (negb _); [apply stays_within_ret |]. cbn [Json] in *.
    destruct (json resp); apply stays_within_ret. }
  intros latest_commit_date. apply stays_within_bind;
    [now apply stays_within_walk_commits |].
  intros recent_commits. apply stays_within_bind; [apply stays_within_lift |].
  intros [commits_last_6m unique_commit_days]. apply stays_within_bind;
    [now apply stays_within_walk_commits |].
  intros all_commits.
  do 4 (apply stays_within_bind; [now apply stays_within_search_count | intros ?]).
  apply stays_within_bind; [now apply stays_within_walk_closed |].
  intros closed_recent_items. apply stays_within_bind; [apply stays_within_lift |].
  intros close_deltas. apply stays_within_bind; [apply stays_within_age_block |].
  intros [repo_age_days days_of_activity]. apply stays_within_ret.
Qed.

Lemma stays_within_rows_loop fuel six_months_ago six_months_iso df repo_data :
  stays_within (concat (map row_urls df))
    (rows_loop fuel six_months_ago six_months_iso df repo_data).
Proof.
  revert repo_data. induction df as [| row df IH]; intros repo_data;
    [apply stays_within_ret |].
  assert (Hrest : forall urls data,
    stays_within (urls ++ concat (map row_urls df))
      (rows_loop fuel six_months_ago six_months_iso df data)).
  { intros urls data. eapply stays_within_weaken; [| apply IH].
    intros u Hu. apply in_or_app. now right. }
  cbn [rows_loop map concat]. unfold row_urls at 1.
  destruct (dict_get row "Github_links") as [[| | | | github_url] |];
    try apply Hrest.
  destruct (pattern_search github_url) as [[owner repo] |]; [| apply Hrest].
  apply stays_within_bind.
  { apply stays_within_safe_request. apply in_or_app. left. left. reflexivity. }
  intros repo_resp. destruct (negb _); [apply Hrest |].
  apply stays_within_bind; [| intros record; apply Hrest].
  eapply stays_within_weaken; [| apply stays_within_collect_repo].
  intros u Hu. apply in_or_app. left. simpl in Hu |- *. tauto.
Qed.

(** X22.  A run only ever appends to the history, and every GET it issues
    asks for the repository-info URL or the commit-listing URL of a
    repository that a row of the input names, or for the issue search: it
    contacts nothing else. *)
Theorem run_contacts_listed_repositories_only fuel df h :
  exists evs,
    (get_gh_data fuel df h).2 = h ++ evs
    /\ gets_within (concat (map row_urls df)) evs.
Proof.
  apply (stays_within_bind _ datetime_now_utc
           (fun now =>
              rows_loop fuel (dt_minus_days now 180)
                (isoformat (dt_minus_days now 180)) df [])).
  - apply stays_within_clock.
  - intros now. apply stays_within_rows_loop.
Qed.

End Urls.

(** ** Statuses and columns *)

Section StatusesAndColumns.
Context {env : Env} {seed : HashSeed}.

Lemma safe_request_first_201 e params h r :
  upstream e h params = Responded r -> status_code r = 201 ->
  _safe_request e params h = (Ok r, h ++ [EvGet (url_of e) params]).
Proof.
  intros Hup Hs. unfold _safe_request.
  rewrite safe_request_loop_step, Hup. cbv zeta. now rewrite Hs.
Qed.

(** X23.  The executor takes a 201 for a success and returns it at once,
    but its callers only accept a 200: a repository whose metadata request
    is answered 201 is passed over after that single GET, with no retry and
    no sleep, and a search answered 201 counts as failed, whatever total it
    carries. *)
Theorem status_201_is_final_but_unused fuel six_months_ago six_months_iso row df
    repo_data github_url owner repo q h :
  (forall repo_resp,
     dict_get row "Github_links" = Some (VStr github_url) ->
     pattern_search github_url = Some (owner, repo) ->
     upstream (RepoApi owner repo) h None = Responded repo_resp ->
     status_code repo_resp = 201 ->
     rows_loop fuel six_months_ago six_months_iso (row :: df) repo_data h
     = rows_loop fuel six_months_ago six_months_iso df repo_data
         (h ++ [EvGet (url_of (RepoApi owner repo)) None]))
  /\ (forall resp,
       let params :=
         Some (<[ "q" := PStr ("repo:" +:+ owner +:+ "/" +:+ repo +:+ " " +:+ q) ]>
                 ({[ "per_page" := PInt 1 ]} : gmap string PVal)) in
       upstream SearchIssuesApi h params = Responded resp ->
       status_code resp = 201 ->
       _search_issues_count owner repo q h
       = (Ok None, h ++ [EvGet (url_of SearchIssuesApi) params])).
Proof.
  split.
  - intros repo_resp Hlink Hmatch Hup Hs.
    cbn [rows_loop]. rewrite Hlink, Hmatch. unfold bind at 1.
    rewrite (safe_request_first_201 _ _ _ _ Hup Hs). now rewrite Hs.
  - intros resp params Hup Hs. unfold _search_issues_count, bind.
    fold params. rewrite (safe_request_first_201 _ _ _ _ Hup Hs).
    now rewrite Hs.
Qed.

Lemma dict_set_keys k v (d : Dict) :
  map fst (dict_set k v d)
  = if existsb (String.eqb k) (map fst d) then map fst d else map fst d ++ [k].
Proof.
  induction d as [| [k0 v0] d IH]; simpl; [reflexivity |].
  destruct (String.eqb_spec k k0) as [-> | Hne]; simpl; [reflexivity |].
  rewrite IH. now destruct (existsb (String.eqb k) (map fst d)).
Qed.

Lemma existsb_eqb_In k (l : list string) :
  existsb (String.eqb k) l = true <-> In k l.
Proof.
  rewrite existsb_exists. split.
  - intros (x & Hx & Heq). apply String.eqb_eq in Heq. now subst.
  - intros Hk. exists k. split; [exact Hk | apply String.eqb_refl].
Qed.

Lemma filter_fresh_ext (keys1 keys2 l : list string) :
  (forall k, In k l -> (In k keys1 <-> In k keys2)) ->
  List.filter (fun k => negb (existsb (String.eqb k) keys1)) l
  = List.filter (fun k => negb (existsb (String.eqb k) keys2)) l.
Proof.
  intros Hl. apply List.filter_ext_in. intros k Hk. f_equal.
  apply eq_true_iff_eq. rewrite !existsb_eqb_In. now apply Hl.
Qed.

(** The columns of [a | b]: those of [a] in their order, then those of [b]
    that [a] lacks, in the order of [b]. *)
Lemma dict_union_keys (a b : Dict) :
  List.NoDup (map fst b) ->
  map fst (dict_union a b)
  = map fst a
    ++ List.filter (fun k => negb (existsb (String.eqb k) (map fst a))) (map fst b).
Proof.
  unfold dict_union. revert a. induction b as [| [k v] b IH]; intros a Hb.
  - simpl. now rewrite app_nil_r.
  - apply List.NoDup_cons_iff in Hb as [Hk Hb]. cbn [fold_left map fst snd List.filter].
    rewrite IH by exact Hb. rewrite dict_set_keys.
    destruct (existsb (String.eqb k) (map fst a)) eqn:Hmem; cbn [negb].
    + reflexivity.
    + rewrite <- app_assoc. cbn [app]. do 2 f_equal.
      apply filter_fresh_ext. intros k' Hk'. rewrite in_app_iff. simpl.
      split; [| tauto]. intros [H | [<- | []]]; [exact H | contradiction].
Qed.

(** X24.  The columns of a record are the columns of its row, in their
    order, followed by those derived columns that the row did not already
    have, in the fixed order in which the Emit step writes them: rows with
    the same columns give records with the same columns. *)
Theorem record_columns_order fuel six_months_ago six_months_iso row owner repo
    repo_info h record h' :
  collect_repo fuel six_months_ago six_months_iso row owner repo repo_info h
    = (Ok record, h') ->
  map fst record
  = map fst row
    ++ List.filter (fun k => negb (existsb (String.eqb k) (map fst row)))
         derived_keys.
Proof.
  intros Hrun. apply collect_repo_inv in Hrun
    as (total_commits & latest_commit_date & commits_last_6m
        & unique_committers & total_issues & open_issues & closed_issues
        & issues_opened_last_6m & avg & repo_age_days & days_of_activity
        & h1 & _ & ->).
  rewrite dict_union_keys; rewrite derived_fields_keys; [reflexivity |].
  unfold derived_keys.
  repeat (apply List.NoDup_cons; [simpl; intuition discriminate |]).
  apply List.NoDup_nil.
Qed.

End StatusesAndColumns.

(** * The further properties at work *)

(** Five 403 answers: the response handed back is one the server gave, and
    it took all five GETs. *)
Lemma safe_request_returns_served_witness :
  let env := Sample.env_of (Sample.serve Scenario.forbidden) in
  let u := url_of Scenario.the_repo in
  let r : Response (Json Scenario.the_repo) :=
    {| status_code := 403; headers := ∅; json := Sample.no_info |} in
  (exists h0, @upstream env Scenario.the_repo h0 None = Responded r)
  /\ (status_code r = 200 \/ status_code r = 201
      \/ exists evs,
           [EvGet u None; EvGet u None; EvGet u None; EvGet u None; EvGet u None]
           = [] ++ evs
           /\ get_count evs = 5%nat).
Proof.
  intros env u r.
  apply (@safe_request_returns_served env Scenario.the_repo None [] r).
  vm_compute. reflexivity.
Defined.

(** A rate-limit answer whose reset time reads "soon" ends the request with
    a [ValueError], after its first GET. *)
Lemma malformed_reset_header_raises_witness :
  let env := Sample.env_of
               (Sample.first_then 403 Cases.garbled_quota_headers Scenario.quiet) in
  @safe_request_loop env Scenario.the_repo None 5 None []
  = (Raise ValueError, [] ++ [EvGet (url_of Scenario.the_repo) None]).
Proof.
  intros env.
  apply (@malformed_reset_header_raises env Scenario.the_repo None 4%nat None []
           {| status_code := 403; headers := Cases.garbled_quota_headers;
              json := Sample.no_info |} "soon").
  - vm_compute. reflexivity.
  - reflexivity.
  - repeat split; [vm_compute; reflexivity .. | discriminate].
  - vm_compute. reflexivity.
Defined.

(** A repository that answers 500 throughout: five GETs, a nap after each,
    and the fifth answer comes back. *)
Lemma persistent_failure_returns_fifth_response_witness :
  let env := Sample.env_of (Sample.serve Cases.broken) in
  let get := EvGet (url_of Scenario.the_repo) None in
  let nap := EvSleep (3 # 2) in
  exists r,
    @upstream env Scenario.the_repo
      ([] ++ [get; nap; get; nap; get; nap; get; nap]) None = Responded r
    /\ @_safe_request env Scenario.the_repo None []
       = (Ok r, [] ++ [get; nap; get; nap; get; nap; get; nap; get; nap]).
Proof.
  intros env.
  apply (@persistent_failure_returns_fifth_response env Scenario.the_repo None []).
  intros h0.
  exists {| status_code := 500; headers := ∅; json := Sample.no_info |}.
  split; [reflexivity |].
  repeat split; discriminate.
Defined.

(** The 250-commit repository: the count is read off the last page number
    of the [Link] header of a one-commit page. *)
Lemma total_commits_count_cases_witness :
  let env := Sample.env_of (Sample.serve Scenario.big) in
  @_get_total_commits_count env "o" "r" []
  = (Ok (Some 250), [EvGet (url_of (CommitsApi "o" "r")) per_page_1]).
Proof.
  intros env.
  pose (resp := {| status_code := 200;
                   headers := Sample.link_header per_page_1 250;
                   json := Sample.page_of per_page_1
                             (Sample.commits Scenario.big) |}
                : Response (Json (CommitsApi "o" "r"))).
  pose (link := default "" (headers resp !! "Link")).
  assert (Hrun : @_safe_request env (CommitsApi "o" "r") per_page_1 []
                 = (Ok resp, [EvGet (url_of (CommitsApi "o" "r")) per_page_1]))
    by (vm_compute; reflexivity).
  destruct (@total_commits_count_cases env "o" "r" [] resp _ Hrun)
    as (_ & _ & Hlink).
  rewrite (Hlink link eq_refl); [| vm_compute; reflexivity].
  vm_compute. reflexivity.
Defined.

(** The 250 commits of the big repository come back whole, in three GETs. *)
Lemma commit_walk_returns_whole_listing_witness :
  let env := Sample.env_of (Sample.serve Scenario.big) in
  @_collect_all_commits env 3 "o" "r" []
  = (Ok (Sample.commits Scenario.big),
     [] ++ page_gets (url_of (CommitsApi "o" "r")) all_params 1 3).
Proof.
  intros env.
  apply (proj1 (@commit_walk_returns_whole_listing env "o" "r" ""
                  (Sample.commits Scenario.big) 3%nat []
                  ltac:(vm_compute; lia))).
  intros page h Hpage.
  exists (Sample.link_header (Some (all_params page)) 250).
  reflexivity.
Defined.

(** Ten rounds of fuel are enough for the closed-issue walk. *)
Lemma closed_issue_walk_is_bounded_witness :
  let env := Sample.env_of (Sample.serve Scenario.with_issues) in
  well_fuelled
    (@_fetch_closed_issues_for_average env 10 "o" "r"
       "2026-05-08T00:00:00+00:00" []).
Proof.
  intros env.
  apply (proj2 (@closed_issue_walk_is_bounded env 10 "o" "r"
                  "2026-05-08T00:00:00+00:00" [])).
  lia.
Defined.

(** A commit without an author is attributed to its committer's login, and
    one without any login to its committer's e-mail address. *)
Lemma committer_identity_priority_witness :
  committer_identity Scenario.bob_misdated = "bob"
  /\ committer_identity Cases.dave_old = "dave@example.org".
Proof.
  split.
  - apply (proj1 (proj2 (proj2 (committer_identity_priority Scenario.bob_misdated))));
      reflexivity.
  - apply (proj1 (proj2 (proj2 (proj2 (committer_identity_priority Cases.dave_old)))));
      reflexivity.
Defined.

(** Five commits by four identities. *)
Lemma committers_are_distinct_identities_witness :
  set_len (@committers_loop Sample.seed_a (Sample.commits Cases.lively) []) = 4.
Proof.
  rewrite (proj1 (@committers_are_distinct_identities Sample.seed_a
                    (Sample.commits Cases.lively))).
  vm_compute. reflexivity.
Defined.

Lemma undated_not_naive (env : Env) c :
  nonempty (commit_committer_date c) = None -> ~ naive_dated c.
Proof. intros Hnone (date_str & dt & Hdate & _). congruence. Qed.

Lemma unparsed_not_naive (env : Env) c date_str :
  nonempty (commit_committer_date c) = Some date_str ->
  parse_date date_str = None -> ~ naive_dated c.
Proof. intros Hd Hp (date_str' & dt & Hdate & Hparse & _). congruence. Qed.

Lemma aware_not_naive (env : Env) c date_str dt offset :
  nonempty (commit_committer_date c) = Some date_str ->
  parse_date date_str = Some dt -> utcoffset dt = Some offset ->
  ~ naive_dated c.
Proof. intros Hd Hp Ho (date_str' & dt' & Hdate & Hparse & Hnaive). congruence. Qed.

(** Of the five commits of the lively repository, the two dated in October
    2026 are counted; the undated, the misdated and the old one are not. *)
Lemma window_count_is_number_in_window_witness :
  let env := Sample.env_of (Sample.serve Cases.lively) in
  match @window_loop env Sample.seed_a Cases.window_start
          (Sample.commits Cases.lively) 0 [] with
  | Ok (n, days) => n = 2 /\ (length days <= 2)%nat
  | _ => False
  end.
Proof.
  intros env.
  assert (Hrecent : ~ @naive_dated env Cases.carol_recent)
    by (apply (aware_not_naive env _ "2026-10-01T12:00:00Z"
                 {| wall := 1790856000000000; utcoffset := Some 0 |} 0);
        vm_compute; reflexivity).
  assert (Hold : ~ @naive_dated env Cases.dave_old)
    by (apply (aware_not_naive env _ "2020-01-01T00:00:00Z"
                 {| wall := 1577836800000000; utcoffset := Some 0 |} 0);
        vm_compute; reflexivity).
  assert (Hundated : ~ @naive_dated env Scenario.alice_undated)
    by (apply undated_not_naive; vm_compute; reflexivity).
  assert (Hmisdated : ~ @naive_dated env Scenario.bob_misdated)
    by (apply (unparsed_not_naive env _ "yesterday"); vm_compute; reflexivity).
  assert (Hall : Forall (fun c => ~ @naive_dated env c)
                   (Sample.commits Cases.lively))
    by (cbv [Sample.commits Cases.lively];
        repeat first [apply Forall_nil_2 | apply Forall_cons_2]; assumption).
  destruct (proj1 (@window_count_is_number_in_window env Sample.seed_a
                     Cases.window_start 0 (Sample.commits Cases.lively) 0 []
                     eq_refl Hall))
    as (days' & Hrun & Hdays).
  rewrite Hrun. vm_compute in Hdays.
  split; [vm_compute; reflexivity | exact Hdays].
Defined.

(** A commit dated without a UTC offset stops the window loop. *)
Lemma naive_timestamps_raise_type_error_witness :
  let env := Sample.env_of (Sample.serve Cases.lively) in
  @window_loop env Sample.seed_a Cases.window_start
    [Cases.carol_recent; Cases.erin_naive; Cases.dave_old] 0 []
  = Raise TypeError.
Proof.
  intros env.
  apply (proj1 (@naive_timestamps_raise_type_error env Sample.seed_a
                  Cases.window_start 0 eq_refl)).
  apply Exists_cons_tl, Exists_cons_hd.
  exists "2026-10-01T12:00:00",
    {| wall := 1790856000000000; utcoffset := None |}.
  repeat split; vm_compute; reflexivity.
Defined.

(** The two closed issues of the scenario give two close times, none
    negative. *)
Lemma close_deltas_are_nonnegative_witness :
  let env := Sample.env_of (Sample.serve Scenario.with_issues) in
  match @close_deltas_loop env Cases.window_start Scenario.two_closed [] with
  | Ok close_deltas =>
      (length close_deltas <= length Scenario.two_closed)%nat
      /\ Forall (fun d => 0 <= d)%Q close_deltas
  | _ => False
  end.
Proof.
  intros env.
  destruct (@close_deltas_loop env Cases.window_start Scenario.two_closed [])
    as [close_deltas | e |] eqn:Hrun;
    [| vm_compute in Hrun; discriminate Hrun ..].
  exact (@close_deltas_are_nonnegative env Cases.window_start
           Scenario.two_closed close_deltas Hrun).
Defined.

(** A repository created at the start of 2020, last committed to in October
    2026, looked at when the clock reads [t0]. *)
Lemma repo_age_block_outcomes_witness :
  let env := Sample.env_of (Sample.serve Cases.lively) in
  match @repo_age_block env (Some "2020-01-01T00:00:00Z")
          (Some "2026-10-01T12:00:00Z") [] with
  | (Ok (age, span), h') =>
      (span <> None -> age <> None)
      /\ (forall a, age = Some a ->
           exists created_str created_dt offset,
             nonempty (Some "2020-01-01T00:00:00Z") = Some created_str
             /\ parse_date created_str = Some created_dt
             /\ utcoffset created_dt = Some offset
             /\ h' = [] ++ [EvClock]
             /\ a = (clock [] - 0 - (wall created_dt - offset)) / day_us)
  | _ => False
  end.
Proof.
  intros env.
  destruct (@repo_age_block env (Some "2020-01-01T00:00:00Z")
              (Some "2026-10-01T12:00:00Z") [])
    as [[[age span] | e |] h'] eqn:Hrun;
    [| vm_compute in Hrun; discriminate Hrun ..].
  destruct (@repo_age_block_outcomes env _ _ _ _ _ _ Hrun) as (Hspan & Hage & _).
  split; [exact Hspan | exact Hage].
Defined.

(** The record of the quiet repository: sixteen derived keys, the row's own
    column untouched, the metadata copied. *)
Lemma emitted_record_schema_witness :
  let env := Sample.env_of (Sample.serve Scenario.quiet) in
  let row := Scenario.row_of "https://github.com/o/r" in
  match (@collect_repo env Sample.seed_a 10 Cases.window_start
           (Sample.format_iso Cases.window_start) row "o" "r"
           Scenario.info_2020 []).1 with
  | Ok record =>
      (forall k, In k derived_keys -> exists v, dict_get record k = Some v)
      /\ (forall k, ~ In k derived_keys -> dict_get record k = dict_get row k)
      /\ dict_get record "language" = Some (VStr "Python")
      /\ dict_get record "stars" = Some (VInt 3)
  | _ => False
  end.
Proof.
  intros env row.
  destruct (@collect_repo env Sample.seed_a 10 Cases.window_start
              (Sample.format_iso Cases.window_start) row "o" "r"
              Scenario.info_2020 []) as [[record | e |] h'] eqn:Hrun;
    [| vm_compute in Hrun; discriminate Hrun ..].
  destruct (@emitted_record_schema env Sample.seed_a _ _ _ _ _ _ _ _ _ _ Hrun)
    as (Hkeys & Hrow & Hlang & _ & _ & _ & Hstars).
  simpl. repeat split; assumption.
Defined.

(** Three rows, of which the second names a repository: one record, for
    that row. *)
Lemma records_follow_input_order_witness :
  let env := Sample.env_of (Sample.serve Scenario.quiet) in
  let df := [ Scenario.row_of "https://gitlab.com/o/r";
              Scenario.row_of "https://github.com/o/r";
              [("Github_links", VNaN)] ] in
  match (@get_gh_data env Sample.seed_a 10 df []).1 with
  | Ok out =>
      exists rows,
        sublist rows df
        /\ Forall resolvable rows
        /\ Forall2
             (fun row record =>
                forall k, ~ In k derived_keys -> dict_get record k = dict_get row k)
             rows out
        /\ (length out <= length df)%nat
  | _ => False
  end.
Proof.
  intros env df.
  destruct (@get_gh_data env Sample.seed_a 10 df [])
    as [[out | e |] h'] eqn:Hrun;
    [| vm_compute in Hrun; discriminate Hrun ..].
  exact (@records_follow_input_order env Sample.seed_a _ _ _ _ _ Hrun).
Defined.

Lemma other_site_unresolvable link :
  pattern_search link = None -> ~ resolvable (Scenario.row_of link).
Proof.
  intros Hnone (github_url & owner & repo & Hlink & Hmatch).
  injection Hlink as <-. congruence.
Qed.

Lemma linkless_unresolvable row :
  (forall github_url, dict_get row "Github_links" <> Some (VStr github_url)) ->
  ~ resolvable row.
Proof.
  intros Hnone (github_url & owner & repo & Hlink & _). exact (Hnone _ Hlink).
Qed.

(** Rows without a usable link: the run reads the clock and ends. *)
Lemma unresolvable_rows_cost_no_request_witness :
  @get_gh_data (Sample.env_of Sample.down) Sample.seed_a 10 Cases.unlinked []
  = (Ok [], [] ++ [EvClock]).
Proof.
  apply (@unresolvable_rows_cost_no_request (Sample.env_of Sample.down)
           Sample.seed_a 10 Cases.unlinked []).
  repeat constructor.
  - apply other_site_unresolvable. vm_compute. reflexivity.
  - apply linkless_unresolvable. intros github_url. vm_compute. discriminate.
  - apply linkless_unresolvable. intros github_url. vm_compute. discriminate.
Defined.

(** A server that cannot be reached: the first resolvable row ends the run
    in an [UnboundLocalError]. *)
Lemma unreachable_server_halts_run_witness :
  exists evs,
    @get_gh_data (Sample.env_of Sample.down) Sample.seed_a 10
      (Cases.unlinked ++ Scenario.the_rows) []
    = (Raise UnboundLocalError, ([] ++ [EvClock]) ++ evs)
    /\ get_count evs = 5%nat.
Proof.
  apply (@unreachable_server_halts_run (Sample.env_of Sample.down)
           Sample.seed_a 10 (Cases.unlinked ++ Scenario.the_rows) []).
  - intros e h0 params. exists ConnectionError. reflexivity.
  - do 3 apply Exists_cons_tl. apply Exists_cons_hd.
    exists "https://github.com/o/r", "o", "r". split; vm_compute; reflexivity.
Defined.

(** The lively repository: two commits in the window out of five, four
    committers, an average close time that is not negative. *)
Lemma activity_metrics_are_bounded_witness :
  let env := Sample.env_of (Sample.serve Cases.lively) in
  match (@collect_repo env Sample.seed_a 10 Cases.window_start
           (Sample.format_iso Cases.window_start)
           (Scenario.row_of "https://github.com/o/r") "o" "r"
           Scenario.info_2020 []).1 with
  | Ok record =>
      (exists n, dict_get record "commitsInLast6Months" = Some (VInt n) /\ 0 <= n)
      /\ (exists m, dict_get record "committersParticipation" = Some (VInt m)
                    /\ 0 <= m)
      /\ (dict_get record "AvgIssueCloseTime" = Some (VInt 0)
          \/ exists avg,
               dict_get record "AvgIssueCloseTime" = Some (VFloat avg)
               /\ (0 <= avg)%Q)
  | _ => False
  end.
Proof.
  intros env.
  destruct (@collect_repo env Sample.seed_a 10 Cases.window_start
              (Sample.format_iso Cases.window_start)
              (Scenario.row_of "https://github.com/o/r") "o" "r"
              Scenario.info_2020 []) as [[record | e |] h'] eqn:Hrun;
    [| vm_compute in Hrun; discriminate Hrun ..].
  destruct (@activity_metrics_are_bounded env Sample.seed_a _ _ _ _ _ _ _ _ _ _ Hrun)
    as ((n & cs & h2 & h3 & _ & Hn & Hn0 & _)
        & (m & cs' & h4 & h5 & _ & Hm & Hm0 & _) & Havg).
  simpl. split; [exists n; tauto |]. split; [exists m; tauto | exact Havg].
Defined.

(** Issue searches answered 422: the issue counts of the record are zeros,
    and the open issues those of the repository metadata. *)
Lemma failed_issue_searches_leave_defaults_witness :
  let env := Sample.env_of (Sample.serve Cases.unsearchable) in
  match (@collect_repo env Sample.seed_a 10 Cases.window_start
           (Sample.format_iso Cases.window_start)
           (Scenario.row_of "https://github.com/o/r") "o" "r"
           Scenario.info_2020 []).1 with
  | Ok record =>
      dict_get record "totalIssues" = Some (VInt 0)
      /\ dict_get record "closedIssues" = Some (VInt 0)
      /\ dict_get record "issuesOpenedLast6Months" = Some (VInt 0)
      /\ dict_get record "AvgIssueCloseTime" = Some (VInt 0)
      /\ dict_get record "openIssues" = Some (VInt 4)
  | _ => False
  end.
Proof.
  intros env.
  destruct (@collect_repo env Sample.seed_a 10 Cases.window_start
              (Sample.format_iso Cases.window_start)
              (Scenario.row_of "https://github.com/o/r") "o" "r"
              Scenario.info_2020 []) as [[record | e |] h'] eqn:Hrun;
    [| vm_compute in Hrun; discriminate Hrun ..].
  simpl.
  apply (@failed_issue_searches_leave_defaults env Sample.seed_a _ _ _ _ _ _ _ _ _ _
           ltac:(intros h0 params r Hup; injection Hup as <-; discriminate)
           Hrun).
Defined.

(** A clone link: the owner and the repository are the two segments after
    the host, the repository with its [.git] suffix. *)
Lemma pattern_search_sound_and_complete_witness :
  "o" <> "" /\ "r.git" <> "" /\ slashless "o" /\ slashless "r.git"
  /\ exists pre post,
       "https://github.com/o/r.git"
       = pre +:+ "github.com/" +:+ "o" +:+ "/" +:+ "r.git" +:+ post
       /\ (post = "" \/ exists post', post = String "/" post').
Proof.
  apply (proj1 pattern_search_sound_and_complete "https://github.com/o/r.git").
  vm_compute. reflexivity.
Defined.

(** A metadata request answered 201: one GET, and on to the next row. *)
Lemma status_201_is_final_but_unused_witness :
  let env := Sample.env_of (Sample.serve Cases.created) in
  @rows_loop env Sample.seed_a 10 Cases.window_start ""
    (Scenario.row_of "https://github.com/o/r" :: []) [] []
  = @rows_loop env Sample.seed_a 10 Cases.window_start "" [] []
      ([] ++ [EvGet (url_of Scenario.the_repo) None]).
Proof.
  intros env.
  apply (proj1 (@status_201_is_final_but_unused env Sample.seed_a 10
                  Cases.window_start "" (Scenario.row_of "https://github.com/o/r")
                  [] [] "https://github.com/o/r" "o" "r" "" [])
           {| status_code := 201; headers := ∅; json := Scenario.info_2020 |});
    vm_compute; reflexivity.
Defined.

(** The record of a one-column row: that column, then the sixteen derived
    ones. *)
Lemma record_columns_order_witness :
  let env := Sample.env_of (Sample.serve Scenario.quiet) in
  match (@collect_repo env Sample.seed_a 10 Cases.window_start
           (Sample.format_iso Cases.window_start)
           (Scenario.row_of "https://github.com/o/r") "o" "r"
           Scenario.info_2020 []).1 with
  | Ok record => map fst record = "Github_links" :: derived_keys
  | _ => False
  end.
Proof.
  intros env.
  destruct (@collect_repo env Sample.seed_a 10 Cases.window_start
              (Sample.format_iso Cases.window_start)
              (Scenario.row_of "https://github.com/o/r") "o" "r"
              Scenario.info_2020 []) as [[record | e |] h'] eqn:Hrun;
    [| vm_compute in Hrun; discriminate Hrun ..].
  simpl.
  rewrite (@record_columns_order env Sample.seed_a _ _ _ _ _ _ _ _ _ _ Hrun).
  vm_compute. reflexivity.
Defined.
